(** * googlecode-issues-exporter/issues.py

    A shallow embedding of the Google Code issue exporter: the read-only
    views over archive records ([GoogleCodeIssue], [GoogleCodeComment]),
    the text normaliser ([FixUpComment]), the user directory loader
    ([LoadUserData]) and the migration engine ([IssueExporter]).

    Python values are modelled as follows.
    - [str] is [string]; ints are [Z]; [None] for an absent dictionary key
      is [option].
    - A JSON object with a fixed set of keys is a record; a key whose
      presence the code tests with [in] is an [option] field.
    - A dict used as a map is a [gmap].
    - An exception is a value of [exn]; a computation that may raise
      returns a [result].
    - The engine's mutable fields, the state of the issue service and the
      log of the calls made on the service are threaded through the state
      and error monad [M].
    - Writes to standard output (the progress feed and the [print]
      statements) are not modelled. *)

From Stdlib Require Import ZArith List String Ascii Lia Bool DecimalString.
From stdpp Require Import base option list gmap strings.

Open Scope string_scope.
Open Scope Z_scope.

(** ** Python runtime *)

Inductive exn : Type :=
| NameError (name : string)
| KeyError (key : Z)
| IndexError
| RuntimeError (msg : string)
| InvalidUserError (msg : string)
| ProjectNotFoundError (msg : string)
| ServiceError (msg : string)
| IOError (msg : string).

Inductive result (A : Type) : Type :=
| Ok (a : A)
| Raise (e : exn).

Arguments Ok {A} a.
Arguments Raise {A} e.

(** The newline character of ["\n"]. *)
Definition nl : string := String "010" "".

(** [str(n)], which is also what [%s] and [%d] print for an int. *)
Definition str_of_int (n : Z) : string := NilZero.string_of_int (Z.to_int n).

(** [%s] applied to a value that may be [None]. *)
Definition str_of_opt (o : option string) : string :=
  match o with
  | Some s => s
  | None => "None"
  end.

(** [sep.join(ls)] *)
Definition join (sep : string) (ls : list string) : string := String.concat sep ls.

(** [s.split("\n")]: never empty, the empty string splits into [[""]]. *)
Fixpoint split_nl (s : string) : list string :=
  match s with
  | "" => [""]
  | String c r =>
      if Ascii.eqb c "010" then "" :: split_nl r
      else match split_nl r with
           | h :: t => String c h :: t
           | [] => [String c ""]
           end
  end.

(** [s.startswith(p)] *)
Definition startswith (s p : string) : bool := String.prefix p s.

(** [needle in s] *)
Fixpoint contains (needle s : string) : bool :=
  String.prefix needle s ||
  match s with
  | "" => false
  | String _ r => contains needle r
  end.

(** [s.endswith(suffix)] *)
Fixpoint endswith (s suffix : string) : bool :=
  String.eqb s suffix ||
  match s with
  | "" => false
  | String _ r => endswith r suffix
  end.

Definition lower_ascii (c : ascii) : ascii :=
  let n := N_of_ascii c in
  if ((65 <=? n) && (n <=? 90))%N then ascii_of_N (n + 32) else c.

(** [s.lower()], for the letters of ASCII. *)
Fixpoint lower (s : string) : string :=
  match s with
  | "" => ""
  | String c r => String (lower_ascii c) (lower r)
  end.

(** [\d] without the UNICODE flag: the set [0-9]. *)
Definition is_digit (c : ascii) : bool :=
  let n := N_of_ascii c in ((48 <=? n) && (n <=? 57))%N.

Fixpoint all_digits (s : string) : bool :=
  match s with
  | "" => true
  | String c r => is_digit c && all_digits r
  end.

Definition starts_with_digit (s : string) : bool :=
  match s with
  | "" => false
  | String c _ => is_digit c
  end.

(** [range(a, b)] *)
Definition range (a b : Z) : list Z :=
  List.map (fun k => a + Z.of_nat k) (seq 0 (Z.to_nat (b - a))).

(** [l[i]] with Python's negative indices. *)
Definition py_index {A : Type} (l : list A) (i : Z) : result A :=
  let n := Z.of_nat (length l) in
  let j := if i <? 0 then i + n else i in
  if (j <? 0) || (n <=? j) then Raise IndexError
  else match l !! Z.to_nat j with
       | Some x => Ok x
       | None => Raise IndexError
       end.

(** ** Text normaliser *)

(** [re.match(r'^#+ ', line)]: one or more [#], then a space. *)
Fixpoint match_heading (line : string) : bool :=
  match line with
  | String "#" r =>
      match r with
      | String " " _ => true
      | _ => match_heading r
      end
  | _ => false
  end.

(** [n] times [#]. *)
Fixpoint hashes (n : nat) : string :=
  match n with
  | O => ""
  | S n' => String "#" (hashes n')
  end.

(** [re.match(r'^Index: ', line)] *)
Definition match_index (line : string) : bool := startswith line "Index: ".

(** The condition under which [preformat_rest_of_comment] is set. *)
Definition starts_preformat (line : string) : bool :=
  if match_heading line || match_index line then true
  else if contains "--- cut here ---" line then true
  else false.

(** [re.sub(r"#(\d+)", r"#&nbsp;\g<1>", line)].  The scan copies characters
    until a [#] that is followed by a digit; there it emits the
    replacement, then copies the greedy digit run of group 1
    ([sub_group]) and resumes the scan behind it. *)
Fixpoint sub_issue_ref (line : string) : string :=
  match line with
  | "" => ""
  | String c r =>
      if Ascii.eqb c "#" && starts_with_digit r
      then "#&nbsp;" +:+ sub_group r
      else String c (sub_issue_ref r)
  end
with sub_group (s : string) : string :=
  match s with
  | "" => ""
  | String c r =>
      if is_digit c then String c (sub_group r)
      else if Ascii.eqb c "#" && starts_with_digit r
      then "#&nbsp;" +:+ sub_group r
      else String c (sub_issue_ref r)
  end.

(** The body of the loop of [FixUpComment]: the flag
    [preformat_rest_of_comment] is threaded through the lines. *)
Fixpoint FixUpLines (preformat_rest_of_comment : bool) (lines : list string)
  : list string :=
  match lines with
  | [] => []
  | line :: rest =>
      let preformat := if starts_preformat line then true
                       else preformat_rest_of_comment in
      (if preformat then "    " +:+ line else sub_issue_ref line)
        :: FixUpLines preformat rest
  end.

Definition FixUpComment (comment : string) : string :=
  join nl (FixUpLines false (split_nl comment)).

(** ** Archive records

    The dictionaries of the Google Code archive.  A key the code reads
    unconditionally is a plain field, a key it tests with [in] first is an
    [option]. *)

Record Attachment : Type := {
  fileName : string;
  isDeleted : option bool   (* [Some v]: the key is present with value [v] *)
}.

Record Comment : Type := {
  comment_content : string;
  comment_attachments : option (list Attachment);
  comment_published : string;
  comment_id : Z;
  comment_author : option string   (* [comment["author"]["name"]] *)
}.

Record Issue : Type := {
  issue_id : Z;
  issue_title : string;
  issue_status : string;
  issue_state : option string;
  issue_author : option string;    (* [issue["author"]["name"]] *)
  issue_published : string;
  issue_comments : list Comment    (* [issue["comments"]["items"]] *)
}.

(** ** User directory

    [collections.defaultdict(lambda: default_username)]: a map with a
    default for the keys it does not hold. *)

Record UserMap : Type := {
  default_username : string;
  user_entries : gmap string string
}.

(** [user_map[name]] *)
Definition user_lookup (user_map : UserMap) (name : string) : string :=
  match user_entries user_map !! name with
  | Some username => username
  | None => default_username user_map
  end.

(** ** GoogleCodeIssue *)

Module GoogleCodeIssue.

Record t : Type := {
  _issue : Issue;
  _project_name : string;
  _user_map : UserMap
}.

Definition GetProjectName (self : t) : string := _project_name self.

Definition GetUserMap (self : t) : UserMap := _user_map self.

Definition GetCreatedOn (self : t) : string := issue_published (_issue self).

Definition GetId (self : t) : Z := issue_id (_issue self).

Definition GetAuthor (self : t) : option string :=
  match issue_author (_issue self) with
  | None => None
  | Some author => Some (user_lookup (_user_map self) author)
  end.

Definition GetStatus (self : t) : string :=
  let status := lower (issue_status (_issue self)) in
  if String.eqb status "accepted" then "open" else status.

Definition GetTitle (self : t) : string := issue_title (_issue self).

(** [items[0]] *)
Definition _GetDescription (self : t) : result Comment :=
  py_index (issue_comments (_issue self)) 0.

(** [items[1:]] *)
Definition GetComments (self : t) : list Comment :=
  drop 1 (issue_comments (_issue self)).

Definition IsOpen (self : t) : bool :=
  match issue_state (_issue self) with
  | Some state => String.eqb state "open"
  | None => false
  end.

End GoogleCodeIssue.

(** ** GoogleCodeComment *)

Module GoogleCodeComment.

Record t : Type := {
  _comment : Comment;
  _googlecode_issue : GoogleCodeIssue.t
}.

(** The constructor call [GoogleCodeComment(googlecode_issue, comment)]. *)
Definition new (googlecode_issue : GoogleCodeIssue.t) (comment : Comment) : t :=
  {| _comment := comment; _googlecode_issue := googlecode_issue |}.

Definition GetCreatedOn (self : t) : string := comment_published (_comment self).

Definition GetId (self : t) : Z := comment_id (_comment self).

Definition GetIssue (self : t) : GoogleCodeIssue.t := _googlecode_issue self.

Definition GetAuthor (self : t) : option string :=
  match comment_author (_comment self) with
  | None => None
  | Some author =>
      Some (user_lookup (GoogleCodeIssue.GetUserMap (GetIssue self)) author)
  end.

(** The storage URL of an attachment. *)
Definition attachment_link (self : t) (attachment : Attachment) : string :=
  "https://storage.googleapis.com/google-code-attachments/"
    +:+ GoogleCodeIssue.GetProjectName (GetIssue self)
    +:+ "/issue-" +:+ str_of_int (GoogleCodeIssue.GetId (GetIssue self))
    +:+ "/comment-" +:+ str_of_int (GetId self)
    +:+ "/" +:+ fileName attachment.

Definition has_extension (attachment : Attachment) (extension : string) : bool :=
  endswith (lower (fileName attachment)) extension.

(** The loop over the extensions: each round ors in
    [has_extension(".png")], whatever [extension] is. *)
Definition is_image_attachment (attachment : Attachment) : bool :=
  fold_left (fun is_image (extension : string) =>
               is_image || has_extension attachment ".png")
            [".png"; ".jpg"; ".jpeg"; ".bmp"; ".tif"; ".gif"] false.

(** The line one round of the attachment loop appends. *)
Definition attachment_line (self : t) (attachment : Attachment) : string :=
  match isDeleted attachment with
  | Some _ => " * *Attachment: " +:+ fileName attachment +:+ " (deleted)*"
  | None =>
      let link := attachment_link self attachment in
      if is_image_attachment attachment
      then " * *Attachment: " +:+ fileName attachment +:+ "<br>!["
             +:+ fileName attachment +:+ "](" +:+ link +:+ ")*"
      else " * *Attachment: [" +:+ fileName attachment +:+ "]("
             +:+ link +:+ ")*"
  end.

Definition GetContent (self : t) : string :=
  let body := comment_content (_comment self) in
  let attachmentLines :=
    List.map (attachment_line self)
             (match comment_attachments (_comment self) with
              | Some attachments => attachments
              | None => []
              end) in
  if 0 <? Z.of_nat (length attachmentLines)
  then body +:+ (nl +:+ "<hr>" +:+ nl) +:+ join nl attachmentLines
  else body.

Definition GetDescription (self : t) : string :=
  let source_issue_id := GoogleCodeIssue.GetId (GetIssue self) in
  let project_name := GoogleCodeIssue.GetProjectName (GetIssue self) in
  let author := GetAuthor self in
  let comment_date := GetCreatedOn self in
  let comment_id := GetId self in
  let comment_text := GetContent self in
  let comment_text :=
    if String.eqb comment_text "" then "&lt;empty&gt;"
    else FixUpComment comment_text in
  let orig_comment_url :=
    "https://code.google.com/p/" +:+ project_name
      +:+ "/issues/detail?id=" +:+ str_of_int source_issue_id
      +:+ "#c" +:+ str_of_int comment_id in
  "Comment [#" +:+ str_of_int comment_id +:+ "](" +:+ orig_comment_url
    +:+ ") originally posted by " +:+ str_of_opt author
    +:+ " on " +:+ comment_date +:+ ":" +:+ nl +:+ nl +:+ comment_text.

End GoogleCodeComment.

(** [GoogleCodeIssue.GetDescription]; it builds a [GoogleCodeComment] over
    the description and so comes after that class. *)
Definition GoogleCodeIssue_GetDescription (self : GoogleCodeIssue.t)
  : result string :=
  let issue_id := GoogleCodeIssue.GetId self in
  match GoogleCodeIssue._GetDescription self with
  | Raise e => Raise e
  | Ok description =>
      let googlecode_comment := GoogleCodeComment.new self description in
      let content := GoogleCodeComment.GetContent googlecode_comment in
      let content := FixUpComment content in
      let author := GoogleCodeComment.GetAuthor googlecode_comment in
      let create_date := GoogleCodeComment.GetCreatedOn googlecode_comment in
      let url := "https://code.google.com/p/"
                   +:+ GoogleCodeIssue._project_name self
                   +:+ "/issues/detail?id=" +:+ str_of_int issue_id in
      Ok ("Original [issue " +:+ str_of_int issue_id +:+ "](" +:+ url
            +:+ ") created by " +:+ str_of_opt author
            +:+ " on " +:+ create_date +:+ ":" +:+ nl +:+ nl +:+ content)
  end.

(** ** Loading the user directory *)

(** The abstract class [UserService]: [IsUser] answers whether the user
    exists, or raises (the base class raises [NotImplementedError], a
    client an error of the service). *)
Class UserService : Type := {
  IsUser : string -> result bool
}.

(** The loop over [user_map.values()]: an error of [IsUser] ends it, and
    so does the first answer that is false. *)
Fixpoint check_users `{UserService} (usernames : list string) : result unit :=
  match usernames with
  | [] => Ok tt
  | username :: rest =>
      match IsUser username with
      | Raise e => Raise e
      | Ok is_user =>
          if negb is_user
          then Raise (InvalidUserError (username +:+ " is not a User"))
          else check_users rest
      end
  end.

(** [read_users path] stands for reading the file at [path] and taking
    [json.loads(...)["users"]]; the path is [None] or a string, and both
    [None] and the empty string are false. *)
Definition LoadUserData `{UserService}
    (read_users : string -> result (gmap string string))
    (user_file_path : option string) (default_username : string)
  : result UserMap :=
  let result := {| default_username := default_username; user_entries := ∅ |} in
  match user_file_path with
  | None | Some "" => Ok result
  | Some path =>
      match read_users path with
      | Raise e => Raise e
      | Ok user_map =>
          match check_users (map_to_list user_map).*2 with
          | Raise e => Raise e
          | Ok _ =>
              (* result.update(user_map) *)
              Ok {| default_username := default_username;
                    user_entries := user_map ∪ user_entries result |}
          end
      end
  end.

(** ** The issue service *)

(** A dictionary of the list [GetIssues] returns. *)
Record TargetIssue : Type := {
  target_id : Z;
  target_title : string;
  target_comments : Z
}.

(** A value of [_previously_created_issues]. *)
Record PreviousIssue : Type := {
  title : string;
  comment_count : Z
}.

(** The calls the engine makes on the issue service, with their
    arguments. *)
Inductive Call : Type :=
| CallGetIssues (state : string)
| CallCreateIssue (googlecode_issue : GoogleCodeIssue.t)
| CallCloseIssue (issue_number : Z)
| CallCreateComment (issue_number source_issue_id : Z)
    (googlecode_comment : GoogleCodeComment.t) (project_name : string).

(** The abstract class [IssueService] over a service state [S]: every
    operation answers or raises, and moves the service to a next state. *)
Class IssueService (S : Type) : Type := {
  GetIssues : string -> S -> result (list TargetIssue) * S;
  CreateIssue : GoogleCodeIssue.t -> S -> result Z * S;
  CloseIssue : Z -> S -> result unit * S;
  CreateComment :
    Z -> Z -> GoogleCodeComment.t -> string -> S -> result unit * S
}.

(** ** IssueExporter *)

Module IssueExporter.

Record t : Type := {
  _issue_json_data : list Issue;
  _project_name : string;
  _user_map : UserMap;
  _previously_created_issues : gmap Z PreviousIssue;
  _issue_total : Z;
  _issue_number : Z;
  _comment_number : Z;
  _comment_total : Z;
  _skipped_issues : Z
}.

(** [__init__] *)
Definition new (issue_json_data : list Issue) (project_name : string)
    (user_map : UserMap) : t :=
  {| _issue_json_data := issue_json_data;
     _project_name := project_name;
     _user_map := user_map;
     _previously_created_issues := ∅;
     _issue_total := 0;
     _issue_number := 0;
     _comment_number := 0;
     _comment_total := 0;
     _skipped_issues := 0 |}.

Definition set_previously_created_issues (v : gmap Z PreviousIssue) (e : t) : t :=
  {| _issue_json_data := _issue_json_data e; _project_name := _project_name e;
     _user_map := _user_map e; _previously_created_issues := v;
     _issue_total := _issue_total e; _issue_number := _issue_number e;
     _comment_number := _comment_number e; _comment_total := _comment_total e;
     _skipped_issues := _skipped_issues e |}.

Definition set_issue_total (v : Z) (e : t) : t :=
  {| _issue_json_data := _issue_json_data e; _project_name := _project_name e;
     _user_map := _user_map e;
     _previously_created_issues := _previously_created_issues e;
     _issue_total := v; _issue_number := _issue_number e;
     _comment_number := _comment_number e; _comment_total := _comment_total e;
     _skipped_issues := _skipped_issues e |}.

Definition set_issue_number (v : Z) (e : t) : t :=
  {| _issue_json_data := _issue_json_data e; _project_name := _project_name e;
     _user_map := _user_map e;
     _previously_created_issues := _previously_created_issues e;
     _issue_total := _issue_total e; _issue_number := v;
     _comment_number := _comment_number e; _comment_total := _comment_total e;
     _skipped_issues := _skipped_issues e |}.

Definition set_comment_number (v : Z) (e : t) : t :=
  {| _issue_json_data := _issue_json_data e; _project_name := _project_name e;
     _user_map := _user_map e;
     _previously_created_issues := _previously_created_issues e;
     _issue_total := _issue_total e; _issue_number := _issue_number e;
     _comment_number := v; _comment_total := _comment_total e;
     _skipped_issues := _skipped_issues e |}.

Definition set_comment_total (v : Z) (e : t) : t :=
  {| _issue_json_data := _issue_json_data e; _project_name := _project_name e;
     _user_map := _user_map e;
     _previously_created_issues := _previously_created_issues e;
     _issue_total := _issue_total e; _issue_number := _issue_number e;
     _comment_number := _comment_number e; _comment_total := v;
     _skipped_issues := _skipped_issues e |}.

Definition set_skipped_issues (v : Z) (e : t) : t :=
  {| _issue_json_data := _issue_json_data e; _project_name := _project_name e;
     _user_map := _user_map e;
     _previously_created_issues := _previously_created_issues e;
     _issue_total := _issue_total e; _issue_number := _issue_number e;
     _comment_number := _comment_number e; _comment_total := _comment_total e;
     _skipped_issues := v |}.

(** [GoogleCodeIssue(issue, self._project_name, self._user_map)] *)
Definition googlecode_issue (e : t) (issue : Issue) : GoogleCodeIssue.t :=
  {| GoogleCodeIssue._issue := issue;
     GoogleCodeIssue._project_name := _project_name e;
     GoogleCodeIssue._user_map := _user_map e |}.

(** What a method of the exporter can read and change: the exporter's own
    fields, the state of the issue service, and the calls made so far
    (oldest first). *)
Record World (S : Type) : Type := {
  self : t;
  service : S;
  calls : list Call
}.

Arguments self {S} w.
Arguments service {S} w.
Arguments calls {S} w.

(** A method body: it ends with a value or an exception, and the changes
    made before an exception stay. *)
Definition M (S A : Type) : Type := World S -> result A * World S.

Definition ret {S A} (a : A) : M S A := fun w => (Ok a, w).

Definition raise {S A} (e : exn) : M S A := fun w => (Raise e, w).

Definition bind {S A B} (c : M S A) (k : A -> M S B) : M S B :=
  fun w =>
    match c w with
    | (Ok a, w') => k a w'
    | (Raise e, w') => (Raise e, w')
    end.

Notation "x <- c ;; k" := (bind c (fun x => k))
  (at level 100, c at next level, right associativity).
Notation "c ;; k" := (bind c (fun _ => k))
  (at level 100, right associativity).

Definition lift {S A} (r : result A) : M S A := fun w => (r, w).

(** Read the fields of [self]. *)
Definition get_self {S} : M S t := fun w => (Ok (self w), w).

(** Assign fields of [self]. *)
Definition update_self {S} (f : t -> t) : M S unit :=
  fun w => (Ok tt, {| self := f (self w); service := service w; calls := calls w |}).

(** A call on the service: the call is logged, the service moves on, and
    its answer or exception is that of the call. *)
Definition invoke {S A} (call : Call) (op : S -> result A * S) : M S A :=
  fun w =>
    let '(r, s) := op (service w) in
    (r, {| self := self w; service := s; calls := (calls w ++ [call])%list |}).

(** [for x in l: body(x)] *)
Fixpoint for_each {S A} (l : list A) (body : A -> M S unit) : M S unit :=
  match l with
  | [] => ret tt
  | x :: rest => body x ;; for_each rest body
  end.

(** The module defines no [die] and imports none, so evaluating the name
    in [... or die("...")] raises [NameError] before the call is made. *)
Definition die {S A} (msg : string) : M S A := raise (NameError "die").

Section Methods.

Context {S : Type} `{IssueService S}.

Definition _GetAllPreviousIssues : M S unit :=
  open_issues <- invoke (CallGetIssues "open") (GetIssues "open") ;;
  closed_issues <- invoke (CallGetIssues "closed") (GetIssues "closed") ;;
  let issues := (open_issues ++ closed_issues)%list in
  for_each issues (fun issue =>
    e <- get_self ;;
    match _previously_created_issues e !! target_id issue with
    | None => ret tt
    | Some _ => die "GitHub returned multiple issues with the same ID?"
    end ;;
    update_self (fun e =>
      set_previously_created_issues
        (<[target_id issue :=
             {| title := target_title issue;
                comment_count := target_comments issue |}]>
           (_previously_created_issues e)) e)).

Definition Init : M S unit := _GetAllPreviousIssues.

Definition _CreateIssue (googlecode_issue : GoogleCodeIssue.t) : M S Z :=
  invoke (CallCreateIssue googlecode_issue) (CreateIssue googlecode_issue).

Definition _CreateComments (comments : list Comment) (issue_number : Z)
    (googlecode_issue : GoogleCodeIssue.t) : M S unit :=
  update_self (set_comment_total (Z.of_nat (length comments))) ;;
  update_self (set_comment_number 0) ;;
  for_each comments (fun comment =>
    let googlecode_comment := GoogleCodeComment.new googlecode_issue comment in
    update_self (fun e => set_comment_number (_comment_number e + 1) e) ;;
    e <- get_self ;;
    invoke (CallCreateComment issue_number
              (GoogleCodeIssue.GetId googlecode_issue)
              googlecode_comment (_project_name e))
           (CreateComment issue_number
              (GoogleCodeIssue.GetId googlecode_issue)
              googlecode_comment (_project_name e))).

(** The search for the highest id, over the keys of the dictionary. *)
Definition last_issue_id (previously_created_issues : gmap Z PreviousIssue) : Z :=
  fold_left (fun last_gh_issue_id id =>
               if id >? last_gh_issue_id then id else last_gh_issue_id)
            (map_to_list previously_created_issues).*1 (-1).

(** The first archive issue with the given id and title, as the loop
    with [break] finds it. *)
Definition find_issue (issue_json_data : list Issue) (last_gh_issue_id : Z)
    (last_gh_issue : PreviousIssue) : option Issue :=
  List.find (fun issue =>
               (issue_id issue =? last_gh_issue_id)
               && String.eqb (issue_title issue) (title last_gh_issue))
            issue_json_data.

(** The first block of [Start] (the one its TODO wants in a function of
    its own): repair of the last issue of an earlier run. *)
Definition Start_repair : M S unit :=
  e <- get_self ;;
  if (size (_previously_created_issues e) =? 0)%nat then ret tt
  else
    let last_gh_issue_id := last_issue_id (_previously_created_issues e) in
    last_gh_issue <-
      match _previously_created_issues e !! last_gh_issue_id with
      | Some v => ret v
      | None => raise (KeyError last_gh_issue_id)
      end ;;
    match find_issue (_issue_json_data e) last_gh_issue_id last_gh_issue with
    | None =>
        raise (RuntimeError
          ("Unable to find Google Code issue #" +:+ str_of_int last_gh_issue_id
             +:+ " '" +:+ title last_gh_issue +:+ "'." +:+ nl
             +:+ "Were GitHub issues added since the last import started?"))
    | Some issue =>
        let last_gc_issue := googlecode_issue e issue in
        let num_gc_issue_comments :=
          Z.of_nat (length (GoogleCodeIssue.GetComments last_gc_issue)) in
        if negb (comment_count last_gh_issue =? num_gc_issue_comments)
        then
          for_each (range (comment_count last_gh_issue) num_gc_issue_comments)
            (fun idx =>
               comment <- lift (py_index (GoogleCodeIssue.GetComments last_gc_issue) idx) ;;
               let googlecode_comment :=
                 GoogleCodeComment.new last_gc_issue comment in
               invoke (CallCreateComment
                         (GoogleCodeIssue.GetId last_gc_issue)
                         (GoogleCodeIssue.GetId last_gc_issue)
                         googlecode_comment (_project_name e))
                      (CreateComment
                         (GoogleCodeIssue.GetId last_gc_issue)
                         (GoogleCodeIssue.GetId last_gc_issue)
                         googlecode_comment (_project_name e)))
        else ret tt
    end.

(** The body of the main loop of [Start]; [continue] ends the body
    early with [ret tt]. *)
Definition Start_issue (issue : Issue) : M S unit :=
  e <- get_self ;;
  let googlecode_issue := googlecode_issue e issue in
  update_self (fun e => set_issue_number (_issue_number e + 1) e) ;;
  let issue_id := GoogleCodeIssue.GetId googlecode_issue in
  match _previously_created_issues e !! issue_id with
  | Some _ =>
      update_self (fun e => set_skipped_issues (_skipped_issues e + 1) e)
  | None =>
      issue_number <- _CreateIssue googlecode_issue ;;
      if issue_number <? 0 then ret tt
      else if negb (issue_number =? GoogleCodeIssue.GetId googlecode_issue)
      then raise (RuntimeError
             ("Google Code and GitHub issue nos mismatch at #"
                +:+ str_of_int (GoogleCodeIssue.GetId googlecode_issue)
                +:+ " (got " +:+ str_of_int issue_number +:+ ")"))
      else
        let comments := GoogleCodeIssue.GetComments googlecode_issue in
        _CreateComments comments issue_number googlecode_issue ;;
        if negb (GoogleCodeIssue.IsOpen googlecode_issue)
        then invoke (CallCloseIssue issue_number) (CloseIssue issue_number)
        else ret tt
  end.

(** The main loop of [Start]. *)
Definition Start_main : M S unit :=
  e <- get_self ;;
  update_self (set_issue_total (Z.of_nat (length (_issue_json_data e)))) ;;
  update_self (set_issue_number 0) ;;
  update_self (set_skipped_issues 0) ;;
  for_each (_issue_json_data e) Start_issue.

Definition Start : M S unit := Start_repair ;; Start_main.

End Methods.

End IssueExporter.

(** ** Test data and an in-memory issue service *)

Definition sample_user_map : UserMap :=
  {| default_username := "migrator";
     user_entries := {[ "alice@example.com" := "alice" ]} |}.

Definition sample_comment (id : Z) (content : string)
    (attachments : option (list Attachment)) : Comment :=
  {| comment_content := content;
     comment_attachments := attachments;
     comment_published := "2014-01-02";
     comment_id := id;
     comment_author := Some "bob@example.com" |}.

Definition sample_issue (id : Z) (title status : string)
    (state : option string) (comments : list Comment) : Issue :=
  {| issue_id := id;
     issue_title := title;
     issue_status := status;
     issue_state := state;
     issue_author := Some "alice@example.com";
     issue_published := "2014-01-01";
     issue_comments := comments |}.

Definition sample_googlecode_issue (issue : Issue) : GoogleCodeIssue.t :=
  {| GoogleCodeIssue._issue := issue;
     GoogleCodeIssue._project_name := "proj";
     GoogleCodeIssue._user_map := sample_user_map |}.

(** An issue with a description and three comments. *)
Definition issue_7 : Issue :=
  sample_issue 7 "Crash on start" "Fixed" (Some "closed")
    [ sample_comment 0 "It crashes." None;
      sample_comment 1 "Confirmed." None;
      sample_comment 2 "See #5." None;
      sample_comment 3 "" None ].

(** The comment body as the specification words it, with the way the
    comment number is written before the link left open: the header, a
    blank line, and the normalised text or the placeholder when that is
    empty. *)
Definition comment_body (reference : string -> string)
    (self : GoogleCodeComment.t) : string :=
  let comment_id := str_of_int (GoogleCodeComment.GetId self) in
  let source_url :=
    "https://code.google.com/p/"
      +:+ GoogleCodeIssue.GetProjectName (GoogleCodeComment.GetIssue self)
      +:+ "/issues/detail?id="
      +:+ str_of_int (GoogleCodeIssue.GetId (GoogleCodeComment.GetIssue self)) in
  let normalized := FixUpComment (GoogleCodeComment.GetContent self) in
  let text := if String.eqb normalized "" then "&lt;empty&gt;" else normalized in
  "Comment " +:+ reference comment_id +:+ "(" +:+ source_url
    +:+ "#c" +:+ comment_id
    +:+ ") originally posted by "
    +:+ str_of_opt (GoogleCodeComment.GetAuthor self)
    +:+ " on " +:+ GoogleCodeComment.GetCreatedOn self
    +:+ ":" +:+ nl +:+ nl +:+ text.

(** The specification's header: [Comment #{comment_id}({source_url}...]. *)
Definition spec_comment_body : GoogleCodeComment.t -> string :=
  comment_body (fun comment_id => "#" +:+ comment_id).

(** The header with the number as the text of a Markdown link:
    [Comment [#{comment_id}]({source_url}...]. *)
Definition linked_comment_body : GoogleCodeComment.t -> string :=
  comment_body (fun comment_id => "[#" +:+ comment_id +:+ "]").

(** The three forms of an attachment line. *)
Definition deleted_notice (attachment : Attachment) : string :=
  " * *Attachment: " +:+ fileName attachment +:+ " (deleted)*".

Definition inline_image (self : GoogleCodeComment.t) (attachment : Attachment)
  : string :=
  " * *Attachment: " +:+ fileName attachment +:+ "<br>!["
    +:+ fileName attachment +:+ "]("
    +:+ GoogleCodeComment.attachment_link self attachment +:+ ")*".

Definition plain_link (self : GoogleCodeComment.t) (attachment : Attachment)
  : string :=
  " * *Attachment: [" +:+ fileName attachment +:+ "]("
    +:+ GoogleCodeComment.attachment_link self attachment +:+ ")*".

(** The extensions the loop of [GetContent] runs over. *)
Definition image_extensions : list string :=
  [".png"; ".jpg"; ".jpeg"; ".bmp"; ".tif"; ".gif"].

Definition jpg_attachment : Attachment :=
  {| fileName := "shot.jpg"; isDeleted := None |}.

Definition png_attachment : Attachment :=
  {| fileName := "Shot.PNG"; isDeleted := None |}.

Definition kept_attachment : Attachment :=
  {| fileName := "notes.txt"; isDeleted := Some false |}.

(** Comment 2 of issue 7, with attachments. *)
Definition comment_with (attachments : list Attachment) : GoogleCodeComment.t :=
  GoogleCodeComment.new (sample_googlecode_issue issue_7)
    (sample_comment 2 "See #5." (Some attachments)).

(** A user service that knows one user, and two user files. *)
Definition known_users : UserService :=
  {| IsUser := fun username => Ok (String.eqb username "alice") |}.

Definition read_sample_users (path : string) : result (gmap string string) :=
  if String.eqb path "users.json"
  then Ok {[ "alice@example.com" := "alice" ]}
  else if String.eqb path "stale.json"
  then Ok {[ "carol@example.com" := "carol" ]}
  else Raise (IOError path).

(** The in-memory issue service: it keeps the lists [GetIssues] answers
    with and hands out issue numbers in sequence; comments and closing
    always succeed. *)
Record Memory : Type := {
  memory_open : list TargetIssue;
  memory_closed : list TargetIssue;
  memory_next : Z
}.

Definition memory_service : IssueService Memory :=
  {| GetIssues := fun state s =>
       (Ok (if String.eqb state "open" then memory_open s else memory_closed s), s);
     CreateIssue := fun _ s =>
       (Ok (memory_next s),
        {| memory_open := memory_open s;
           memory_closed := memory_closed s;
           memory_next := memory_next s + 1 |});
     CloseIssue := fun _ s => (Ok tt, s);
     CreateComment := fun _ _ _ _ s => (Ok tt, s) |}.

(** The call [CreateComment] for one comment of an issue. *)
Definition comment_call (googlecode_issue : GoogleCodeIssue.t)
    (issue_number : Z) (project_name : string) (comment : Comment) : Call :=
  CallCreateComment issue_number (GoogleCodeIssue.GetId googlecode_issue)
    (GoogleCodeComment.new googlecode_issue comment) project_name.

Definition is_CreateComment (call : Call) : bool :=
  match call with
  | CallCreateComment _ _ _ _ => true
  | _ => false
  end.

Definition is_CloseIssue (call : Call) : bool :=
  match call with
  | CallCloseIssue _ => true
  | _ => false
  end.

Definition is_CreateIssue (call : Call) : bool :=
  match call with
  | CallCreateIssue _ => true
  | _ => false
  end.

(** An exporter over an archive with a given index of earlier issues,
    before its first call. *)
Definition exporter_with (issue_json_data : list Issue)
    (previously_created_issues : gmap Z PreviousIssue) : IssueExporter.t :=
  IssueExporter.set_previously_created_issues previously_created_issues
    (IssueExporter.new issue_json_data "proj" sample_user_map).

Definition world_with (issue_json_data : list Issue)
    (previously_created_issues : gmap Z PreviousIssue) (service : Memory)
  : IssueExporter.World Memory :=
  {| IssueExporter.self := exporter_with issue_json_data previously_created_issues;
     IssueExporter.service := service;
     IssueExporter.calls := [] |}.

Definition empty_target (next : Z) : Memory :=
  {| memory_open := []; memory_closed := []; memory_next := next |}.

(** Issue 7 was created by an earlier run, with one of its three
    comments. *)
Definition interrupted_index : gmap Z PreviousIssue :=
  {[ 3 := {| title := "Typo"; comment_count := 0 |};
     7 := {| title := "Crash on start"; comment_count := 1 |} ]}.

Definition issue_3 : Issue :=
  sample_issue 3 "Typo" "New" (Some "open") [ sample_comment 0 "teh" None ].

(** Status [New], state [open]. *)
Definition issue_8 : Issue :=
  sample_issue 8 "Slow" "New" (Some "open")
    [ sample_comment 0 "It is slow."  None; sample_comment 1 "Still." None ].

(** Status [Accepted], state [closed]. *)
Definition issue_9 : Issue :=
  sample_issue 9 "Old" "Accepted" (Some "closed")
    [ sample_comment 0 "Old one." None; sample_comment 1 "Done." None ].

(** A target that lists issue 7 twice, once open and once closed. *)
Definition duplicated_target : Memory :=
  {| memory_open :=
       [ {| target_id := 7; target_title := "Crash on start"; target_comments := 1 |} ];
     memory_closed :=
       [ {| target_id := 7; target_title := "Crash"; target_comments := 0 |} ];
     memory_next := 8 |}.

(** ** Vocabulary of the engine's properties *)

(** [e'] is [e] up to the comment counters of the progress feed. *)
Definition same_but_comment_progress (e e' : IssueExporter.t) : Prop :=
  exists comment_number comment_total,
    e' = IssueExporter.set_comment_number comment_number
           (IssueExporter.set_comment_total comment_total e).

(** The world at the head of the main loop of [Start]: the three
    assignments before the loop are made. *)
Definition begin_main {S : Type} (w : IssueExporter.World S) : IssueExporter.World S :=
  {| IssueExporter.self :=
       IssueExporter.set_skipped_issues 0
         (IssueExporter.set_issue_number 0
            (IssueExporter.set_issue_total
               (Z.of_nat (length (IssueExporter._issue_json_data (IssueExporter.self w))))
               (IssueExporter.self w)));
     IssueExporter.service := IssueExporter.service w;
     IssueExporter.calls := IssueExporter.calls w |}.

(** The world after [n] issues are skipped: two counters move, nothing
    else does. *)
Definition skipped {S : Type} (n : Z) (w : IssueExporter.World S)
  : IssueExporter.World S :=
  {| IssueExporter.self :=
       IssueExporter.set_skipped_issues
         (IssueExporter._skipped_issues (IssueExporter.self w) + n)
         (IssueExporter.set_issue_number
            (IssueExporter._issue_number (IssueExporter.self w) + n)
            (IssueExporter.self w));
     IssueExporter.service := IssueExporter.service w;
     IssueExporter.calls := IssueExporter.calls w |}.

(** The message of the error raised on an issue number that is not the
    source id. *)
Definition mismatch_message (issue : Issue) (issue_number : Z) : string :=
  "Google Code and GitHub issue nos mismatch at #"
    +:+ str_of_int (issue_id issue)
    +:+ " (got " +:+ str_of_int issue_number +:+ ")".

(** The world in which the main loop reaches a new issue: an empty index
    and a target whose next number is [next]. *)
Definition fresh_world (issue_json_data : list Issue) (next : Z)
  : IssueExporter.World Memory :=
  world_with issue_json_data ∅ (empty_target next).

(** The index after the entries of [issues] are recorded in order. *)
Definition record_issues (issues : list TargetIssue)
    (index : gmap Z PreviousIssue) : gmap Z PreviousIssue :=
  fold_left (fun index issue =>
               <[target_id issue :=
                   {| title := target_title issue;
                      comment_count := target_comments issue |}]> index)
            issues index.

(** The world with another index. *)
Definition with_index {S : Type} (index : gmap Z PreviousIssue)
    (w : IssueExporter.World S) : IssueExporter.World S :=
  {| IssueExporter.self :=
       IssueExporter.set_previously_created_issues index (IssueExporter.self w);
     IssueExporter.service := IssueExporter.service w;
     IssueExporter.calls := IssueExporter.calls w |}.

(** The message written at the call of [die]. *)
Definition duplicate_message : string :=
  "GitHub returned multiple issues with the same ID?".

Import IssueExporter.

(** Unfold the monad of the engine. *)
Ltac run := unfold bind, ret, raise, lift, get_self, update_self, invoke; simpl.

(** ** The rest of the module

    The accessors over the keys ["labels"] and ["owner"] of the issue
    dictionary, which the record [Issue] does not carry, take the value
    under the key ([None]: the key is absent). *)

(** [s[n:]] *)
Fixpoint slice_from (n : nat) (s : string) : string :=
  match n, s with
  | O, _ => s
  | Datatypes.S n', String _ r => slice_from n' r
  | Datatypes.S _, "" => ""
  end.

(** [GoogleCodeIssue.GetLabels]: [self._issue.get("labels", [])] *)
Definition GetLabels (labels : option (list string)) : list string :=
  match labels with
  | Some l => l
  | None => []
  end.

(** [GoogleCodeIssue.GetKind] *)
Definition GetKind (labels : option (list string)) : string :=
  let types := List.filter (fun t => contains "Type-" t) (GetLabels labels) in
  match types with
  | t :: _ => slice_from (String.length "Type-") t
  | [] => "Defect"
  end.

(** [GoogleCodeIssue.GetPriority] *)
Definition GetPriority (labels : option (list string)) : string :=
  let priorities := List.filter (fun p => contains "Priority-" p) (GetLabels labels) in
  match priorities with
  | p :: _ => slice_from (String.length "Priority-") p
  | [] => "Medium"
  end.

(** [GoogleCodeIssue.GetOwner], over [issue["owner"]["name"]]. *)
Definition GetOwner (self : GoogleCodeIssue.t) (owner : option string)
  : option string :=
  match owner with
  | None => None
  | Some owner => Some (user_lookup (GoogleCodeIssue._user_map self) owner)
  end.

(** A project of the issue file: its name and [project["issues"]["items"]]. *)
Record Project : Type := {
  proj_name : string;
  proj_issues : list Issue
}.

(** [LoadIssueData]; [read_projects path] stands for reading the file at
    [path] and taking [json.load(...)["projects"]]. *)
Definition LoadIssueData (read_projects : string -> result (list Project))
    (issue_file_path project_name : string) : result (list Issue) :=
  match read_projects issue_file_path with
  | Raise e => Raise e
  | Ok user_projects =>
      match List.find (fun project => String.eqb project_name (proj_name project))
                      user_projects with
      | Some project => Ok (proj_issues project)
      | None =>
          Raise (ProjectNotFoundError ("Project " +:+ project_name +:+ " not found"))
      end
  end.

(** ** More vocabulary *)

(** A [#] directly followed by a digit occurs in the text. *)
Fixpoint has_issue_ref (s : string) : bool :=
  match s with
  | "" => false
  | String c r => (Ascii.eqb c "#" && starts_with_digit r) || has_issue_ref r
  end.

(** A newline occurs in the text. *)
Fixpoint has_newline (s : string) : bool :=
  match s with
  | "" => false
  | String c r => Ascii.eqb c "010" || has_newline r
  end.

(** [e'] has the archive, project name, user map and index of [e]. *)
Definition same_config (e e' : IssueExporter.t) : Prop :=
  _issue_json_data e' = _issue_json_data e
  /\ _project_name e' = _project_name e
  /\ _user_map e' = _user_map e
  /\ _previously_created_issues e' = _previously_created_issues e.

(** The calls for one new issue when nothing goes wrong: the creation,
    every comment behind the description, and the closing unless the
    issue is open. *)
Definition issue_calls (e : IssueExporter.t) (issue : Issue) : list Call :=
  let gi := googlecode_issue e issue in
  (CallCreateIssue gi
     :: List.map (comment_call gi (issue_id issue) (_project_name e))
                 (GoogleCodeIssue.GetComments gi)
     ++ (if GoogleCodeIssue.IsOpen gi then [] else [CallCloseIssue (issue_id issue)]))%list.

(** An issue service that numbers each issue with its source id and
    raises nothing. *)
Definition echo_service : IssueService unit :=
  {| GetIssues := fun _ s => (Ok [], s);
     CreateIssue := fun googlecode_issue s => (Ok (GoogleCodeIssue.GetId googlecode_issue), s);
     CloseIssue := fun _ s => (Ok tt, s);
     CreateComment := fun _ _ _ _ s => (Ok tt, s) |}.

(** An issue service that is out of reach: every call raises. *)
Definition down_service : IssueService unit :=
  {| GetIssues := fun _ s => (Raise (ServiceError "unreachable"), s);
     CreateIssue := fun _ s => (Raise (ServiceError "unreachable"), s);
     CloseIssue := fun _ s => (Raise (ServiceError "unreachable"), s);
     CreateComment := fun _ _ _ _ s => (Raise (ServiceError "unreachable"), s) |}.

(** An issue service that declines every issue with the negative
    number. *)
Definition declining_service : IssueService unit :=
  {| GetIssues := fun _ s => (Ok [], s);
     CreateIssue := fun _ s => (Ok (-1), s);
     CloseIssue := fun _ s => (Ok tt, s);
     CreateComment := fun _ _ _ _ s => (Ok tt, s) |}.

Definition unit_world (issue_json_data : list Issue)
    (previously_created_issues : gmap Z PreviousIssue) : World unit :=
  {| self := exporter_with issue_json_data previously_created_issues;
     service := tt;
     calls := [] |}.

(** A target that lists issues 3 and 7. *)
Definition listed_target : Memory :=
  {| memory_open :=
       [ {| target_id := 3; target_title := "Typo"; target_comments := 0 |} ];
     memory_closed :=
       [ {| target_id := 7; target_title := "Crash on start"; target_comments := 1 |} ];
     memory_next := 8 |}.

Definition sample_projects (path : string) : result (list Project) :=
  if String.eqb path "issues.json"
  then Ok [ {| proj_name := "other"; proj_issues := [issue_3] |};
            {| proj_name := "proj"; proj_issues := [issue_7; issue_8] |} ]
  else Raise (IOError path).

Definition txt_attachment : Attachment :=
  {| fileName := "trace.txt"; isDeleted := None |}.

(** Comment 1 of issue 7 as an object, with the author's address. *)
Definition comment_by (author : option string) : GoogleCodeComment.t :=
  GoogleCodeComment.new (sample_googlecode_issue issue_7)
    {| comment_content := "Confirmed.";
       comment_attachments := None;
       comment_published := "2014-01-02";
       comment_id := 1;
       comment_author := author |}.

(** The calls of the main loop for one issue when nothing goes wrong:
    none for an issue in the index. *)
Definition new_issue_calls (e : IssueExporter.t) (issue : Issue) : list Call :=
  match _previously_created_issues e !! issue_id issue with
  | Some _ => []
  | None => issue_calls e issue
  end.

(** The record the index keeps of a listed issue. *)
Definition previous_of (issue : TargetIssue) : PreviousIssue :=
  {| title := target_title issue; comment_count := target_comments issue |}.

(** The message of the error raised when the archive has no issue for
    the last issue of the target. *)
Definition unable_to_find_message (last_gh_issue_id : Z)
    (last_gh_issue : PreviousIssue) : string :=
  "Unable to find Google Code issue #" +:+ str_of_int last_gh_issue_id
    +:+ " '" +:+ title last_gh_issue +:+ "'." +:+ nl
    +:+ "Were GitHub issues added since the last import started?".

(** The world after a call on the service that moved it to [s]. *)
Definition after_call {S : Type} (call : Call) (s : S) (w : World S) : World S :=
  {| self := self w; service := s; calls := (calls w ++ [call])%list |}.

(** The issue's id is a key of the index. *)
Definition previously_created (e : IssueExporter.t) (issue : Issue) : bool :=
  match _previously_created_issues e !! issue_id issue with
  | Some _ => true
  | None => false
  end.

(** The world after [CreateIssue] was called for an issue of the main
    loop and moved the service to [s]. *)
Definition after_create {S : Type} (issue : Issue) (s : S) (w : World S) : World S :=
  {| self := set_issue_number (_issue_number (self w) + 1) (self w);
     service := s;
     calls := (calls w ++ [CallCreateIssue (googlecode_issue (self w) issue)])%list |}.

(** An index in which issue 7 has all three comments. *)
Definition complete_index : gmap Z PreviousIssue :=
  {[ 7 := {| title := "Crash on start"; comment_count := 3 |} ]}.

(** Every character of the text is one of ASCII. *)
Fixpoint is_ascii (s : string) : bool :=
  match s with
  | "" => true
  | String c r => (N_of_ascii c <? 128)%N && is_ascii r
  end.

(** * Properties *)

(** ** Strings *)

Lemma append_nil (b : string) : "" +:+ b = b.
Proof. reflexivity. Qed.

Lemma append_cons (x : ascii) (a b : string) :
  String x a +:+ b = String x (a +:+ b).
Proof. reflexivity. Qed.

Lemma append_assoc (a b c : string) : (a +:+ b) +:+ c = a +:+ (b +:+ c).
Proof.
  induction a as [|x a IH]; [reflexivity|].
  now rewrite !append_cons, IH.
Qed.

Lemma append_empty_r (a : string) : a +:+ "" = a.
Proof.
  induction a as [|x a IH]; [reflexivity|].
  now rewrite append_cons, IH.
Qed.

Lemma append_length (a b : string) :
  String.length (a +:+ b) = (String.length a + String.length b)%nat.
Proof.
  induction a as [|x a IH]; [reflexivity|].
  rewrite append_cons. simpl. now rewrite IH.
Qed.

Lemma digit_not_hash (c : ascii) : is_digit c = true -> Ascii.eqb c "#" = false.
Proof.
  intros Hd. destruct (Ascii.eqb_spec c "#") as [->|]; [discriminate Hd | reflexivity].
Qed.

(** ** The text normaliser *)

(** Inside group 1 the scan behaves as outside: digits are copied as they
    are in both. *)
Lemma sub_group_scan (s : string) : sub_group s = sub_issue_ref s.
Proof.
  induction s as [|c r IH]; simpl; [reflexivity|].
  destruct (is_digit c) eqn:Hd.
  - rewrite (digit_not_hash c Hd). simpl. now rewrite IH.
  - reflexivity.
Qed.

Lemma sub_issue_ref_cons (c : ascii) (r : string) :
  sub_issue_ref (String c r) =
  if Ascii.eqb c "#" && starts_with_digit r
  then "#&nbsp;" +:+ sub_issue_ref r
  else String c (sub_issue_ref r).
Proof. simpl. now rewrite sub_group_scan. Qed.

Lemma sub_issue_ref_digits (ds r : string) :
  all_digits ds = true -> sub_issue_ref (ds +:+ r) = ds +:+ sub_issue_ref r.
Proof.
  induction ds as [|c ds IH]; intros Hds; [reflexivity|].
  simpl in Hds. apply andb_prop in Hds as [Hc Hds].
  rewrite !append_cons, sub_issue_ref_cons, (digit_not_hash c Hc). simpl.
  now rewrite IH.
Qed.

(** The scan of a text is the scan of its parts wherever the second part
    starts with a [#]: no match reaches across that point. *)
Lemma sub_issue_ref_before_hash (l r : string) :
  sub_issue_ref (l +:+ String "#" r) = sub_issue_ref l +:+ sub_issue_ref (String "#" r).
Proof.
  induction l as [|c l IH]; [reflexivity|].
  rewrite append_cons, (sub_issue_ref_cons c), (sub_issue_ref_cons c l), IH.
  assert (Hsd : starts_with_digit (l +:+ String "#" r) = starts_with_digit l).
  { destruct l; reflexivity. }
  rewrite Hsd.
  destruct (Ascii.eqb c "#" && starts_with_digit l);
    [now rewrite append_assoc | now rewrite append_cons].
Qed.

Lemma sub_issue_ref_reference (l ds r : string) :
  all_digits ds = true -> ds <> "" ->
  sub_issue_ref (l +:+ "#" +:+ ds +:+ r)
  = sub_issue_ref l +:+ "#&nbsp;" +:+ ds +:+ sub_issue_ref r.
Proof.
  intros Hds Hne.
  change ("#" +:+ ds +:+ r) with (String "#" (ds +:+ r)).
  rewrite sub_issue_ref_before_hash, sub_issue_ref_cons.
  assert (Hsd : starts_with_digit (ds +:+ r) = true).
  { destruct ds as [|c ds]; [congruence|]. simpl in *.
    now apply andb_prop in Hds as [-> _]. }
  rewrite Hsd. simpl andb. cbv iota.
  now rewrite sub_issue_ref_digits.
Qed.

Lemma FixUpLines_preformatted (lines : list string) :
  FixUpLines true lines = List.map (String.append "    ") lines.
Proof.
  induction lines as [|line rest IH]; simpl; [reflexivity|].
  destruct (starts_preformat line); now rewrite IH.
Qed.

Lemma FixUpLines_split (pre rest : list string) :
  Forall (fun line => starts_preformat line = false) pre ->
  (rest = [] \/ exists t post, rest = t :: post /\ starts_preformat t = true) ->
  FixUpLines false (pre ++ rest)
  = (List.map sub_issue_ref pre ++ List.map (String.append "    ") rest)%list.
Proof.
  intros Hpre Hrest. induction Hpre as [|line pre Hline _ IH]; simpl.
  - destruct Hrest as [->|(t & post & -> & Ht)]; [reflexivity|].
    simpl. rewrite Ht. now rewrite FixUpLines_preformatted.
  - rewrite Hline. now rewrite IH.
Qed.

(** What the three tests of [starts_preformat] recognise. *)

Lemma startswith_iff (s p : string) :
  startswith s p = true <-> exists rest, s = p +:+ rest.
Proof.
  unfold startswith. revert s.
  induction p as [|a p IH]; intros s; simpl.
  - split; [intros _; now exists s | intros _; now destruct s].
  - destruct s as [|b s].
    + split; [discriminate | intros [rest Hrest]; discriminate Hrest].
    + simpl. destruct (ascii_dec a b) as [->|Hab].
      * rewrite IH. split; intros [rest Hrest]; exists rest.
        -- now rewrite append_cons, Hrest.
        -- rewrite append_cons in Hrest. now injection Hrest.
      * split; [discriminate|]. intros [rest Hrest].
        rewrite append_cons in Hrest. injection Hrest as Hba _. congruence.
Qed.

Lemma contains_nil (needle : string) :
  contains needle "" = startswith "" needle.
Proof. unfold startswith. simpl. now rewrite orb_false_r. Qed.

Lemma contains_cons (needle : string) (c : ascii) (s : string) :
  contains needle (String c s)
  = startswith (String c s) needle || contains needle s.
Proof. reflexivity. Qed.

Lemma contains_iff (needle s : string) :
  contains needle s = true <-> exists a b, s = a +:+ needle +:+ b.
Proof.
  induction s as [|c s IH].
  - rewrite contains_nil, startswith_iff. split.
    + intros [rest Hrest]. now exists "", rest.
    + intros (a & b & Hab). destruct a; [now exists b | discriminate Hab].
  - rewrite contains_cons, orb_true_iff, IH, startswith_iff. split.
    + intros [[rest Hrest] | (a & b & Hab)].
      * now exists "", rest.
      * exists (String c a), b. now rewrite append_cons, Hab.
    + intros (a & b & Hab). destruct a as [|x a].
      * left. now exists b.
      * right. exists a, b. rewrite append_cons in Hab. now injection Hab.
Qed.

Lemma match_heading_iff (line : string) :
  match_heading line = true <->
  exists n rest, line = hashes (S n) +:+ " " +:+ rest.
Proof.
  split.
  - induction line as [|c r IH]; simpl; [discriminate|].
    destruct (Ascii.eqb_spec c "#") as [->|Hc].
    + destruct r as [|d r'].
      * simpl. discriminate.
      * destruct (Ascii.eqb_spec d " ") as [->|Hd].
        -- intros _. now exists O, r'.
        -- intros Hm.
           assert (Hr : match_heading (String d r') = true).
           { revert Hm. clear -Hd.
             destruct d as [[] [] [] [] [] [] [] []]; try exact (fun H => H);
               congruence. }
           destruct (IH Hr) as (n & rest & Hrest).
           exists (S n), rest. rewrite Hrest. reflexivity.
    + intros Hm. exfalso. revert Hm. clear -Hc.
      destruct c as [[] [] [] [] [] [] [] []]; try discriminate; congruence.
  - intros (n & rest & ->). induction n as [|n IH]; [reflexivity|].
    change (hashes (S (S n)) +:+ " " +:+ rest)
      with (String "#" (hashes (S n) +:+ " " +:+ rest)).
    simpl. simpl in IH. exact IH.
Qed.

Lemma starts_preformat_iff (line : string) :
  starts_preformat line = true <->
  (exists n rest, line = hashes (S n) +:+ " " +:+ rest)
  \/ (exists rest, line = "Index: " +:+ rest)
  \/ (exists a b, line = a +:+ "--- cut here ---" +:+ b).
Proof.
  rewrite <- match_heading_iff, <- startswith_iff, <- contains_iff.
  unfold starts_preformat, match_index.
  destruct (match_heading line), (startswith line "Index: "),
    (contains "--- cut here ---" line); simpl; intuition congruence.
Qed.

(** C5.  Up to the first line that is a heading ([#]s and a space), begins
    with [Index: ] or contains [--- cut here ---], [FixUpComment] rewrites
    each line with [sub_issue_ref], which puts [&nbsp;] between the [#]
    and the digits of every [#<digits>]; that line and all later ones are
    prefixed with four spaces and otherwise unchanged. *)
Theorem FixUpComment_preformat_rest_of_comment :
  (forall (comment : string) (pre rest : list string),
     split_nl comment = (pre ++ rest)%list ->
     Forall (fun line => starts_preformat line = false) pre ->
     (rest = [] \/ exists t post, rest = t :: post /\ starts_preformat t = true) ->
     FixUpComment comment
     = join nl (List.map sub_issue_ref pre
                ++ List.map (String.append "    ") rest)%list)
  /\ (forall line : string,
        starts_preformat line = true <->
        (exists n rest, line = hashes (S n) +:+ " " +:+ rest)
        \/ (exists rest, line = "Index: " +:+ rest)
        \/ (exists a b, line = a +:+ "--- cut here ---" +:+ b))
  /\ (forall l ds r : string,
        all_digits ds = true -> ds <> "" ->
        sub_issue_ref (l +:+ "#" +:+ ds +:+ r)
        = sub_issue_ref l +:+ "#&nbsp;" +:+ ds +:+ sub_issue_ref r)
  /\ FixUpComment ("# Heading" +:+ nl +:+ "#42 is broken")
     = "    # Heading" +:+ nl +:+ "    #42 is broken"
  /\ FixUpComment ("#42 is broken" +:+ nl +:+ "# Heading")
     = "#&nbsp;42 is broken" +:+ nl +:+ "    # Heading".
Proof.
  split; [|split; [|split; [|split]]].
  - intros comment pre rest Hsplit Hpre Hrest. unfold FixUpComment.
    now rewrite Hsplit, FixUpLines_split.
  - exact starts_preformat_iff.
  - exact sub_issue_ref_reference.
  - reflexivity.
  - reflexivity.
Qed.

Lemma FixUpComment_preformat_rest_of_comment_witness :
  FixUpComment ("see #7" +:+ nl +:+ "Index: a.c" +:+ nl +:+ "#42 is broken")
  = join nl (List.map sub_issue_ref ["see #7"]
             ++ List.map (String.append "    ") ["Index: a.c"; "#42 is broken"])%list
  /\ sub_issue_ref ("see " +:+ "#" +:+ "7" +:+ "")
     = sub_issue_ref "see " +:+ "#&nbsp;" +:+ "7" +:+ sub_issue_ref "".
Proof.
  split.
  - apply (proj1 FixUpComment_preformat_rest_of_comment
             ("see #7" +:+ nl +:+ "Index: a.c" +:+ nl +:+ "#42 is broken")
             ["see #7"] ["Index: a.c"; "#42 is broken"]).
    + reflexivity.
    + repeat constructor.
    + right. exists "Index: a.c", ["#42 is broken"]. split; reflexivity.
  - apply (proj1 (proj2 (proj2 FixUpComment_preformat_rest_of_comment))).
    + reflexivity.
    + discriminate.
Defined.

(** ** Comment content and description *)

Lemma is_image_attachment_png (attachment : Attachment) :
  GoogleCodeComment.is_image_attachment attachment
  = GoogleCodeComment.has_extension attachment ".png".
Proof.
  unfold GoogleCodeComment.is_image_attachment. simpl.
  destruct (GoogleCodeComment.has_extension attachment ".png"); reflexivity.
Qed.

Lemma attachment_link_length (self : GoogleCodeComment.t) (attachment : Attachment) :
  (55 <= String.length (GoogleCodeComment.attachment_link self attachment))%nat.
Proof.
  unfold GoogleCodeComment.attachment_link. rewrite append_length. simpl. lia.
Qed.

Lemma attachment_line_present (self : GoogleCodeComment.t)
    (attachment : Attachment) (v : bool) :
  isDeleted attachment = Some v ->
  GoogleCodeComment.attachment_line self attachment = deleted_notice attachment.
Proof.
  intros Hkey. unfold GoogleCodeComment.attachment_line. now rewrite Hkey.
Qed.

Lemma attachment_line_absent (self : GoogleCodeComment.t) (attachment : Attachment) :
  isDeleted attachment = None ->
  GoogleCodeComment.attachment_line self attachment
  = if GoogleCodeComment.has_extension attachment ".png"
    then inline_image self attachment
    else plain_link self attachment.
Proof.
  intros Hkey. unfold GoogleCodeComment.attachment_line.
  now rewrite Hkey, is_image_attachment_png.
Qed.

Lemma inline_image_not_notice (self : GoogleCodeComment.t) (attachment : Attachment) :
  inline_image self attachment <> deleted_notice attachment.
Proof.
  intros Heq. apply (f_equal String.length) in Heq.
  unfold inline_image, deleted_notice in Heq.
  pose proof (attachment_link_length self attachment) as Hlen.
  repeat (rewrite append_length in Heq; simpl String.length in Heq). lia.
Qed.

Lemma plain_link_not_notice (self : GoogleCodeComment.t) (attachment : Attachment) :
  plain_link self attachment <> deleted_notice attachment.
Proof.
  intros Heq. apply (f_equal String.length) in Heq.
  unfold plain_link, deleted_notice in Heq.
  pose proof (attachment_link_length self attachment) as Hlen.
  repeat (rewrite append_length in Heq; simpl String.length in Heq). lia.
Qed.

Lemma GetContent_attachments (self : GoogleCodeComment.t)
    (attachments : list Attachment) :
  comment_attachments (GoogleCodeComment._comment self) = Some attachments ->
  attachments <> [] ->
  GoogleCodeComment.GetContent self
  = comment_content (GoogleCodeComment._comment self)
      +:+ (nl +:+ "<hr>" +:+ nl)
      +:+ join nl (List.map (GoogleCodeComment.attachment_line self) attachments).
Proof.
  intros Hatt Hne. unfold GoogleCodeComment.GetContent. rewrite Hatt.
  destruct attachments as [|a rest]; [congruence|]. reflexivity.
Qed.

(** C10.  The line [GetContent] appends for an attachment is the
    "(deleted)" notice exactly when the attachment has an [isDeleted] key,
    whatever the value under the key; without the key the line is the
    inline image or the plain link. *)
Theorem deleted_notice_iff_isDeleted_key
    (self : GoogleCodeComment.t) (attachment : Attachment) :
  (GoogleCodeComment.attachment_line self attachment = deleted_notice attachment
   <-> isDeleted attachment <> None)
  /\ (forall v : bool,
        isDeleted attachment = Some v ->
        GoogleCodeComment.attachment_line self attachment
        = deleted_notice attachment)
  /\ (isDeleted attachment = None ->
      GoogleCodeComment.attachment_line self attachment
      = inline_image self attachment
      \/ GoogleCodeComment.attachment_line self attachment
         = plain_link self attachment)
  /\ (forall attachments : list Attachment,
        comment_attachments (GoogleCodeComment._comment self) = Some attachments ->
        attachments <> [] ->
        GoogleCodeComment.GetContent self
        = comment_content (GoogleCodeComment._comment self)
            +:+ (nl +:+ "<hr>" +:+ nl)
            +:+ join nl (List.map (GoogleCodeComment.attachment_line self)
                                  attachments)).
Proof.
  split; [|split; [|split]].
  - destruct (isDeleted attachment) as [v|] eqn:Hkey.
    + split; [discriminate|]. intros _. now apply attachment_line_present with v.
    + rewrite (attachment_line_absent _ _ Hkey). split; [|congruence].
      destruct (GoogleCodeComment.has_extension attachment ".png"); intros Heq.
      * now apply inline_image_not_notice in Heq.
      * now apply plain_link_not_notice in Heq.
  - intros v. apply attachment_line_present.
  - intros Hkey. rewrite (attachment_line_absent _ _ Hkey).
    destruct (GoogleCodeComment.has_extension attachment ".png"); auto.
  - apply GetContent_attachments.
Qed.

Lemma deleted_notice_iff_isDeleted_key_witness :
  GoogleCodeComment.attachment_line (comment_with [kept_attachment]) kept_attachment
  = " * *Attachment: notes.txt (deleted)*"
  /\ GoogleCodeComment.GetContent (comment_with [kept_attachment])
     = "See #5." +:+ nl +:+ "<hr>" +:+ nl +:+ " * *Attachment: notes.txt (deleted)*".
Proof.
  pose proof (deleted_notice_iff_isDeleted_key
                (comment_with [kept_attachment]) kept_attachment)
    as (_ & Hpresent & _ & Hcontent).
  split.
  - exact (Hpresent false eq_refl).
  - rewrite (Hcontent [kept_attachment] eq_refl); [reflexivity | discriminate].
Defined.

(** C6.  Every round of the extension loop tests [".png"], so only a
    [.png] name is an image: a [.jpg] attachment that is not deleted gets
    the plain link and not the inline image. *)
Theorem jpg_attachment_gets_plain_link :
  In ".jpg" image_extensions
  /\ endswith (lower (fileName jpg_attachment)) ".jpg" = true
  /\ isDeleted jpg_attachment = None
  /\ GoogleCodeComment.attachment_line (comment_with [jpg_attachment]) jpg_attachment
     = plain_link (comment_with [jpg_attachment]) jpg_attachment
  /\ GoogleCodeComment.attachment_line (comment_with [jpg_attachment]) jpg_attachment
     <> inline_image (comment_with [jpg_attachment]) jpg_attachment
  /\ GoogleCodeComment.GetContent (comment_with [jpg_attachment])
     = "See #5." +:+ nl +:+ "<hr>" +:+ nl
         +:+ " * *Attachment: [shot.jpg](https://storage.googleapis.com/google-code-attachments/proj/issue-7/comment-2/shot.jpg)*"
  /\ (forall attachment : Attachment,
        GoogleCodeComment.is_image_attachment attachment
        = endswith (lower (fileName attachment)) ".png").
Proof.
  repeat split; try reflexivity.
  - simpl. tauto.
  - discriminate.
  - exact is_image_attachment_png.
Qed.

Lemma split_nl_single (s h : string) : split_nl s = [h] -> s = h.
Proof.
  revert h. induction s as [|c r IH]; intros h; simpl.
  - congruence.
  - destruct (Ascii.eqb c "010").
    + destruct r; simpl; [discriminate|].
      destruct (Ascii.eqb _ "010"); [discriminate|].
      destruct (split_nl r); discriminate.
    + destruct (split_nl r) as [|h' t] eqn:Hr.
      * destruct r; simpl in Hr; [discriminate|].
        destruct (Ascii.eqb _ "010"); [discriminate|].
        destruct (split_nl r); discriminate.
      * intros Heq. injection Heq as <- ->. now rewrite (IH h' eq_refl).
Qed.

Lemma split_nl_not_nil (s : string) : split_nl s <> [].
Proof.
  destruct s as [|c r]; simpl; [discriminate|].
  destruct (Ascii.eqb c "010"); [discriminate|].
  destruct (split_nl r); discriminate.
Qed.

Lemma sub_issue_ref_empty (line : string) : sub_issue_ref line = "" -> line = "".
Proof.
  destruct line as [|c r]; [reflexivity|].
  rewrite sub_issue_ref_cons.
  destruct (Ascii.eqb c "#" && starts_with_digit r); discriminate.
Qed.

Lemma FixUpLines_cons (b : bool) (line : string) (rest : list string) :
  exists out b', FixUpLines b (line :: rest) = out :: FixUpLines b' rest
                 /\ (out = "" -> line = "").
Proof.
  simpl. eexists _, _. split; [reflexivity|].
  destruct (if starts_preformat line then true else b).
  - discriminate.
  - apply sub_issue_ref_empty.
Qed.

Lemma join_two_not_empty (a b : string) (rest : list string) :
  join nl (a :: b :: rest) <> "".
Proof.
  unfold join. simpl. intros Heq. apply (f_equal String.length) in Heq.
  rewrite !append_length in Heq. simpl in Heq. lia.
Qed.

(** Normalisation empties no text: the test of [GetDescription] on the
    text before [FixUpComment] is a test on the text after it. *)
Lemma FixUpComment_empty (comment : string) :
  FixUpComment comment = "" <-> comment = "".
Proof.
  split; [|now intros ->].
  unfold FixUpComment. intros Hempty.
  destruct (split_nl comment) as [|line rest] eqn:Hsplit.
  - now apply split_nl_not_nil in Hsplit.
  - destruct (FixUpLines_cons false line rest) as (out & b' & Heq & Hout).
    rewrite Heq in Hempty. destruct rest as [|line2 rest].
    + simpl in Hempty. apply split_nl_single in Hsplit. rewrite Hsplit. auto.
    + destruct (FixUpLines_cons b' line2 rest) as (out2 & b2 & Heq2 & _).
      rewrite Heq2 in Hempty. now apply join_two_not_empty in Hempty.
Qed.

(** C8, as the code has it.  [GetDescription] is the header
    [Comment [#{comment_id}]({source_url}#c{comment_id}) originally posted
    by {author} on {created_at}:], a blank line, and the normalised text
    of the comment, or [&lt;empty&gt;] when that text is empty: the
    comment number is the text of a Markdown link, in square brackets. *)
Theorem GetDescription_linked_header (self : GoogleCodeComment.t) :
  GoogleCodeComment.GetDescription self = linked_comment_body self.
Proof.
  unfold GoogleCodeComment.GetDescription, linked_comment_body, comment_body.
  destruct (String.eqb_spec (GoogleCodeComment.GetContent self) "") as [He|Hne].
  - rewrite He. rewrite !append_assoc. reflexivity.
  - destruct (String.eqb_spec (FixUpComment (GoogleCodeComment.GetContent self)) "")
      as [Hf|_].
    + apply (proj1 (FixUpComment_empty _)) in Hf. contradiction.
    + rewrite !append_assoc. reflexivity.
Qed.

(** C8 as stated fails on comment 2 of issue 7: the code writes
    [Comment [#2](...)], the claimed header is [Comment #2(...)]. *)
Lemma GetDescription_not_spec_header :
  GoogleCodeComment.GetDescription (comment_with [])
  <> spec_comment_body (comment_with []).
Proof. intros Heq. vm_compute in Heq. discriminate Heq. Qed.

(** ** The user directory *)

Section UserDirectory.

Context `{UserService}.

(** The loop fails as soon as one of the usernames is not a user: with
    [InvalidUserError] for a username that is not one, or with the
    error that [IsUser] raised. *)
Lemma check_users_invalid (usernames : list string) :
  (exists username, username ∈ usernames /\ IsUser username = Ok false) ->
  exists e,
    check_users usernames = Raise e
    /\ ((exists invalid,
           invalid ∈ usernames /\ IsUser invalid = Ok false
           /\ e = InvalidUserError (invalid +:+ " is not a User"))
        \/ (exists username, username ∈ usernames /\ IsUser username = Raise e)).
Proof.
  induction usernames as [|u rest IH]; intros (username & Hin & Hno).
  - inversion Hin.
  - simpl. destruct (IsUser u) as [[]|e] eqn:Hu; simpl.
    + destruct IH as (e & Hraise & Hwhy).
      * exists username. split; [|exact Hno].
        apply elem_of_cons in Hin as [->|Hin]; [congruence | exact Hin].
      * exists e. split; [exact Hraise|].
        destruct Hwhy as [(invalid & Hinv & Hno' & He)|(raising & Hr & He)].
        -- left. exists invalid. split; [apply elem_of_cons; now right | now split].
        -- right. exists raising. split; [apply elem_of_cons; now right | exact He].
    + eexists. split; [reflexivity|]. left. exists u.
      split; [apply elem_of_cons; now left | now split].
    + exists e. split; [reflexivity|]. right. exists u.
      split; [apply elem_of_cons; now left | exact Hu].
Qed.

Lemma check_users_valid (usernames : list string) :
  (forall username, username ∈ usernames -> IsUser username = Ok true) ->
  check_users usernames = Ok tt.
Proof.
  induction usernames as [|u rest IH]; intros Hall; simpl; [reflexivity|].
  rewrite (Hall u) by (apply elem_of_cons; now left). simpl.
  apply IH. intros username Hin. apply Hall, elem_of_cons. now right.
Qed.

Lemma LoadUserData_default (read_users : string -> result (gmap string string))
    (user_file_path : option string) (default : string) (user_map : UserMap) :
  LoadUserData read_users user_file_path default = Ok user_map ->
  default_username user_map = default.
Proof.
  unfold LoadUserData. intros Hload.
  destruct user_file_path as [[|c path]|]; try (injection Hload as <-; reflexivity).
  destruct (read_users (String c path)); [|discriminate].
  destruct (check_users _); [|discriminate].
  injection Hload as <-. reflexivity.
Qed.

(** C9.  In a directory that [LoadUserData] returns, a source username
    without an entry resolves to the default username (the lookup is a
    total function: it cannot raise); the entries are those of the user
    file.  When the user service answers that a username the file maps
    to is not a user, the load fails: with [InvalidUserError] naming
    such a username or with an error that [IsUser] itself raised for a
    mapped username, and so with [InvalidUserError] when [IsUser] raises
    for none of them. *)
Theorem LoadUserData_default_and_validation
    (read_users : string -> result (gmap string string))
    (user_file_path : option string) (default : string) :
  (forall user_map : UserMap,
     LoadUserData read_users user_file_path default = Ok user_map ->
     forall name : string,
       user_entries user_map !! name = None ->
       user_lookup user_map name = default)
  /\ (forall (path : string) (entries : gmap string string) (user_map : UserMap),
        user_file_path = Some path -> path <> "" ->
        read_users path = Ok entries ->
        LoadUserData read_users user_file_path default = Ok user_map ->
        user_entries user_map = entries)
  /\ (user_file_path = None \/ user_file_path = Some "" ->
      LoadUserData read_users user_file_path default
      = Ok {| default_username := default; user_entries := ∅ |})
  /\ (forall (path : string) (entries : gmap string string)
             (source username : string),
        user_file_path = Some path -> path <> "" ->
        read_users path = Ok entries ->
        entries !! source = Some username ->
        IsUser username = Ok false ->
        (exists e,
           LoadUserData read_users user_file_path default = Raise e
           /\ ((exists source' invalid,
                  entries !! source' = Some invalid /\ IsUser invalid = Ok false
                  /\ e = InvalidUserError (invalid +:+ " is not a User"))
               \/ (exists source' raising,
                     entries !! source' = Some raising
                     /\ IsUser raising = Raise e)))
        /\ ((forall source' mapped,
               entries !! source' = Some mapped ->
               exists is_user, IsUser mapped = Ok is_user) ->
            exists source' invalid,
              entries !! source' = Some invalid /\ IsUser invalid = Ok false
              /\ LoadUserData read_users user_file_path default
                 = Raise (InvalidUserError (invalid +:+ " is not a User")))).
Proof.
  split; [|split; [|split]].
  - intros user_map Hload name Hnone. unfold user_lookup. rewrite Hnone.
    now apply LoadUserData_default in Hload.
  - intros path entries user_map -> Hpath Hread. unfold LoadUserData.
    destruct path as [|c path]; [congruence|]. rewrite Hread.
    destruct (check_users _); [|discriminate].
    intros Hload. injection Hload as <-. simpl. apply (right_id_L ∅ (∪)).
  - intros [->| ->]; reflexivity.
  - intros path entries source username -> Hpath Hread Hentry Hno.
    assert (Hmapped : forall u, u ∈ (map_to_list entries).*2 ->
                        exists source', entries !! source' = Some u).
    { intros u Hin. apply list_elem_of_fmap in Hin as ([source' u'] & -> & Hin).
      apply elem_of_map_to_list in Hin. now exists source'. }
    destruct (check_users_invalid (map_to_list entries).*2)
      as (e & Hraise & Hwhy).
    { exists username. split; [|exact Hno].
      apply list_elem_of_fmap. exists (source, username). split; [reflexivity|].
      now apply elem_of_map_to_list. }
    assert (Hload : LoadUserData read_users (Some path) default = Raise e).
    { unfold LoadUserData. destruct path as [|c path]; [congruence|].
      now rewrite Hread, Hraise. }
    assert (Hcases :
      (exists source' invalid,
         entries !! source' = Some invalid /\ IsUser invalid = Ok false
         /\ e = InvalidUserError (invalid +:+ " is not a User"))
      \/ (exists source' raising,
            entries !! source' = Some raising /\ IsUser raising = Raise e)).
    { destruct Hwhy as [(invalid & Hin & Hinv & He)|(raising & Hin & He)].
      - left. destruct (Hmapped invalid Hin) as [source' Hsource].
        now exists source', invalid.
      - right. destruct (Hmapped raising Hin) as [source' Hsource].
        now exists source', raising. }
    split; [exists e; now split|].
    intros Hanswers.
    destruct Hcases as [(source' & invalid & Hsource & Hinv & ->)
                       |(source' & raising & Hsource & He)].
    + now exists source', invalid.
    + destruct (Hanswers source' raising Hsource) as [is_user His].
      rewrite His in He. discriminate He.
Qed.

End UserDirectory.

Lemma LoadUserData_default_and_validation_witness :
  user_lookup {| default_username := "migrator";
                 user_entries := {[ "alice@example.com" := "alice" ]} |}
              "bob@example.com" = "migrator"
  /\ exists source invalid,
       ({[ "carol@example.com" := "carol" ]} : gmap string string) !! source
       = Some invalid
       /\ @IsUser known_users invalid = Ok false
       /\ @LoadUserData known_users read_sample_users (Some "stale.json") "migrator"
          = Raise (InvalidUserError (invalid +:+ " is not a User")).
Proof.
  split.
  - apply (proj1 (@LoadUserData_default_and_validation known_users
                    read_sample_users (Some "users.json") "migrator")).
    + reflexivity.
    + reflexivity.
  - apply (proj2 (proj2 (proj2 (proj2 (@LoadUserData_default_and_validation
                    known_users read_sample_users (Some "stale.json") "migrator")))
             "stale.json" _ "carol@example.com" "carol"
             eq_refl ltac:(discriminate) eq_refl eq_refl eq_refl)).
    intros source' mapped _. eexists. reflexivity.
Defined.

(** ** The engine *)

Lemma range_empty (a b : Z) : b <= a -> range a b = [].
Proof.
  intros Hle. unfold range. replace (Z.to_nat (b - a)) with O by lia. reflexivity.
Qed.

Lemma range_cons (a b : Z) : a < b -> range a b = a :: range (a + 1) b.
Proof.
  intros Hlt. unfold range.
  replace (Z.to_nat (b - a)) with (Datatypes.S (Z.to_nat (b - (a + 1)))) by lia.
  simpl. f_equal; [lia|].
  rewrite <- seq_shift, List.map_map.
  apply List.map_ext. intros k. lia.
Qed.

Lemma py_index_middle {A : Type} (done todo : list A) (x : A) :
  py_index (done ++ x :: todo) (Z.of_nat (length done)) = Ok x.
Proof.
  unfold py_index. cbv zeta.
  assert (Hneg : (Z.of_nat (length done) <? 0) = false) by (apply Z.ltb_ge; lia).
  assert (Hin : (Z.of_nat (length (done ++ x :: todo)) <=? Z.of_nat (length done))
                = false).
  { apply Z.leb_gt. rewrite length_app. simpl. lia. }
  rewrite Hneg, Hin. simpl.
  rewrite Hneg, Nat2Z.id. simpl.
  now rewrite list_lookup_middle.
Qed.

(** The search of [last_issue_id] is a maximum over the keys and [-1]. *)
Lemma fold_max_spec (ids : list Z) (init : Z) :
  let last := fold_left (fun last id => if id >? last then id else last) ids init in
  init <= last /\ (forall id, id ∈ ids -> id <= last)
  /\ (last = init \/ last ∈ ids).
Proof.
  revert init. induction ids as [|x ids IH]; intros init; simpl.
  - split; [lia|]. split; [|now left]. intros id Hin. inversion Hin.
  - specialize (IH (if x >? init then x else init)).
    destruct IH as (Hinit & Hall & Hlast).
    destruct (Z.gtb_spec x init) as [Hgt|Hle].
    + split; [lia|]. split.
      * intros id Hin. apply elem_of_cons in Hin as [->|Hin]; [lia | now apply Hall].
      * right. destruct Hlast as [->|Hlast]; apply elem_of_cons; auto.
    + split; [lia|]. split.
      * intros id Hin. apply elem_of_cons in Hin as [->|Hin]; [lia | now apply Hall].
      * destruct Hlast as [->|Hlast]; [now left|]. right. apply elem_of_cons; auto.
Qed.

Lemma last_issue_id_highest (previous : gmap Z PreviousIssue) (last_id : Z)
    (last : PreviousIssue) :
  previous !! last_id = Some last ->
  (forall id, is_Some (previous !! id) -> id <= last_id) ->
  -1 <= last_id ->
  last_issue_id previous = last_id.
Proof.
  intros Hlast Hmax Hfloor. unfold last_issue_id.
  pose proof (fold_max_spec (map_to_list previous).*1 (-1)) as (Hinit & Hall & Hin).
  cbv zeta in Hinit, Hall, Hin.
  assert (Hkey : forall id, id ∈ (map_to_list previous).*1 <-> is_Some (previous !! id)).
  { intros id. rewrite list_elem_of_fmap. split.
    - intros ([id' v] & -> & Hv). apply elem_of_map_to_list in Hv. now exists v.
    - intros [v Hv]. exists (id, v). split; [reflexivity|].
      now apply elem_of_map_to_list. }
  assert (Hle : last_id <= fold_left
            (fun last id => if id >? last then id else last)
            (map_to_list previous).*1 (-1)).
  { apply Hall, Hkey. now exists last. }
  destruct Hin as [Heq|Hin]; [lia|].
  apply Hkey, Hmax in Hin. lia.
Qed.

Section Engine.

Context {S : Type} `{IssueService S}.

Lemma for_each_app {A : Type} (l1 l2 : list A) (body : A -> M S unit) (w : World S) :
  for_each (l1 ++ l2) body w
  = match for_each l1 body w with
    | (Ok _, w') => for_each l2 body w'
    | (Raise e, w') => (Raise e, w')
    end.
Proof.
  revert w. induction l1 as [|x l1 IH]; intros w; simpl; [reflexivity|].
  unfold bind. destruct (body x w) as [[[]|e] w1]; [apply IH | reflexivity].
Qed.

Lemma for_each_cons_invoke {A : Type} (x : A) (l : list A) (call : A -> Call)
    (op : A -> S -> result unit * S) (w : World S) :
  for_each (x :: l) (fun x => invoke (call x) (op x)) w
  = match op x (service w) with
    | (Ok _, s1) =>
        for_each l (fun x => invoke (call x) (op x))
          {| self := self w; service := s1; calls := (calls w ++ [call x])%list |}
    | (Raise e, s1) =>
        (Raise e,
         {| self := self w; service := s1; calls := (calls w ++ [call x])%list |})
    end.
Proof.
  simpl. unfold bind. unfold invoke at 1.
  destruct (op x (service w)) as [[[]|e] s1]; reflexivity.
Qed.

(** A loop of service calls, one per element: the calls made are those of
    a prefix of the list, in order; of the whole list when the loop ends
    normally, which it does when the service raises nothing. *)
Lemma for_each_invoke {A : Type} (l : list A) (call : A -> Call)
    (op : A -> S -> result unit * S) (w : World S) :
  let rw := for_each l (fun x => invoke (call x) (op x)) w in
  self rw.2 = self w
  /\ (exists k, calls rw.2 = (calls w ++ List.map call (take k l))%list)
  /\ (rw.1 = Ok tt -> calls rw.2 = (calls w ++ List.map call l)%list)
  /\ ((forall x s, (op x s).1 = Ok tt) -> rw.1 = Ok tt).
Proof.
  revert w. induction l as [|x l IH]; intros w; cbv zeta.
  - simpl. split; [reflexivity|]. split; [|split]; try reflexivity.
    + exists O. simpl. now rewrite app_nil_r.
    + now rewrite app_nil_r.
  - rewrite for_each_cons_invoke.
    destruct (op x (service w)) as [[[]|e] s1] eqn:Hop.
    + specialize (IH {| self := self w; service := s1;
                        calls := (calls w ++ [call x])%list |}).
      cbv zeta in IH. simpl in IH. destruct IH as (Hself & [k Hk] & Hok & Hall).
      split; [exact Hself|]. split; [|split].
      * exists (Datatypes.S k). rewrite Hk, <- app_assoc. reflexivity.
      * intros Hr. rewrite (Hok Hr), <- app_assoc. reflexivity.
      * exact Hall.
    + simpl. split; [reflexivity|]. split; [|split].
      * exists 1%nat. simpl. now destruct l.
      * discriminate.
      * intros Hall. specialize (Hall x (service w)). rewrite Hop in Hall.
        discriminate Hall.
Qed.

(** The repair loop over [range(comment_count, num_gc_issue_comments)]
    visits the comments behind the first [comment_count] ones. *)
Lemma repair_loop (comments done todo : list Comment) (call : Comment -> Call)
    (op : Comment -> S -> result unit * S) (w : World S) :
  comments = (done ++ todo)%list ->
  for_each (range (Z.of_nat (length done)) (Z.of_nat (length comments)))
    (fun idx => comment <- lift (py_index comments idx) ;;
                invoke (call comment) (op comment)) w
  = for_each todo (fun comment => invoke (call comment) (op comment)) w.
Proof.
  revert done w. induction todo as [|c todo IH]; intros done w ->.
  - rewrite app_nil_r, range_empty by lia. reflexivity.
  - rewrite range_cons by (rewrite length_app; simpl; lia).
    simpl. unfold bind, lift.
    rewrite py_index_middle.
    destruct (invoke (call c) (op c) w) as [[[]|e] w1]; [|reflexivity].
    specialize (IH (done ++ [c])%list w1).
    rewrite length_app in IH. simpl in IH.
    replace (Z.of_nat (length done + 1)) with (Z.of_nat (length done) + 1) in IH by lia.
    apply IH. now rewrite <- app_assoc.
Qed.

End Engine.

(** ** Resume repair *)

Section Repair.

Context {S : Type} `{IssueService S}.

Lemma find_issue_matches (issue_json_data : list Issue) (last_id : Z)
    (last : PreviousIssue) (issue : Issue) :
  find_issue issue_json_data last_id last = Some issue ->
  issue ∈ issue_json_data /\ issue_id issue = last_id
  /\ issue_title issue = title last.
Proof.
  unfold find_issue. intros Hfind. apply find_some in Hfind as [Hin Htest].
  apply andb_prop in Htest as [Hid Htitle].
  split; [now apply list_elem_of_In|]. split; [lia|].
  now apply String.eqb_eq.
Qed.

(** C1.  When the issue with the highest id in the index records fewer
    comments than the archive issue of that id and title has behind its
    description, the repair pass calls [CreateComment] for the comments
    from index [comment_count] on and for no other: the calls it makes
    are a prefix of that suffix, in archive order and addressed to the
    highest id; they are the whole suffix when the pass ends normally,
    and it does when [CreateComment] raises nothing. *)
Theorem Start_repair_replays_missing_suffix
    (w : World S) (last_id : Z) (last : PreviousIssue) (issue : Issue) :
  _previously_created_issues (self w) !! last_id = Some last ->
  (forall id, is_Some (_previously_created_issues (self w) !! id) -> id <= last_id) ->
  -1 <= last_id ->
  find_issue (_issue_json_data (self w)) last_id last = Some issue ->
  0 <= comment_count last
    < Z.of_nat (length (GoogleCodeIssue.GetComments (googlecode_issue (self w) issue))) ->
  let missing :=
    List.map
      (fun comment =>
         CallCreateComment last_id last_id
           (GoogleCodeComment.new (googlecode_issue (self w) issue) comment)
           (_project_name (self w)))
      (drop (Z.to_nat (comment_count last))
            (GoogleCodeIssue.GetComments (googlecode_issue (self w) issue))) in
  let rw := Start_repair w in
  (exists k, calls rw.2 = (calls w ++ take k missing)%list)
  /\ (rw.1 = Ok tt -> calls rw.2 = (calls w ++ missing)%list)
  /\ ((forall n sid c p s, (CreateComment n sid c p s).1 = Ok tt) -> rw.1 = Ok tt).
Proof.
  intros Hlast Hmax Hfloor Hfind Hcount. cbv zeta.
  destruct (find_issue_matches _ _ _ _ Hfind) as (_ & Hid & _).
  set (gi := googlecode_issue (self w) issue) in *.
  set (comments := GoogleCodeIssue.GetComments gi) in *.
  set (n := Z.to_nat (comment_count last)).
  assert (Hrun : Start_repair w
                 = for_each (drop n comments)
                     (fun comment =>
                        invoke (CallCreateComment last_id last_id
                                  (GoogleCodeComment.new gi comment)
                                  (_project_name (self w)))
                               (CreateComment last_id last_id
                                  (GoogleCodeComment.new gi comment)
                                  (_project_name (self w)))) w).
  { unfold Start_repair, bind, get_self.
    destruct (Nat.eqb_spec (size (_previously_created_issues (self w))) 0) as [Hsize|_].
    { apply map_size_empty_iff in Hsize. rewrite Hsize, lookup_empty in Hlast.
      discriminate Hlast. }
    rewrite (last_issue_id_highest _ _ _ Hlast Hmax Hfloor), Hlast.
    unfold ret. rewrite Hfind. fold gi. fold comments.
    destruct (Z.eqb_spec (comment_count last) (Z.of_nat (length comments)))
      as [Heq|_]; [lia|]. simpl negb. cbv iota.
    assert (Hgid : GoogleCodeIssue.GetId gi = last_id) by exact Hid.
    rewrite Hgid.
    replace (comment_count last) with (Z.of_nat (length (take n comments))).
    - apply (repair_loop comments (take n comments) (drop n comments)
               (fun comment => CallCreateComment last_id last_id
                                 (GoogleCodeComment.new gi comment)
                                 (_project_name (self w)))
               (fun comment => CreateComment last_id last_id
                                 (GoogleCodeComment.new gi comment)
                                 (_project_name (self w)))).
      now rewrite take_drop.
    - rewrite length_take. unfold n. lia. }
  rewrite Hrun.
  pose proof (for_each_invoke (drop n comments)
                (fun comment => CallCreateComment last_id last_id
                                  (GoogleCodeComment.new gi comment)
                                  (_project_name (self w)))
                (fun comment => CreateComment last_id last_id
                                  (GoogleCodeComment.new gi comment)
                                  (_project_name (self w))) w)
    as (_ & [k Hk] & Hok & Hall).
  cbv zeta in Hk, Hok, Hall.
  split; [|split].
  - exists k. rewrite Hk. f_equal. symmetry. apply firstn_map.
  - exact Hok.
  - intros Hnever. apply Hall. intros comment s. apply Hnever.
Qed.

End Repair.

Lemma Start_repair_replays_missing_suffix_witness :
  calls (@Start_repair _ memory_service
           (world_with [issue_3; issue_7; issue_8] interrupted_index (empty_target 8))).2
  = List.map
      (fun comment =>
         CallCreateComment 7 7
           (GoogleCodeComment.new (sample_googlecode_issue issue_7) comment) "proj")
      [ sample_comment 2 "See #5." None; sample_comment 3 "" None ].
Proof.
  pose proof (@Start_repair_replays_missing_suffix _ memory_service
                (world_with [issue_3; issue_7; issue_8] interrupted_index (empty_target 8))
                7 {| title := "Crash on start"; comment_count := 1 |} issue_7)
    as Hrepair.
  cbv zeta in Hrepair.
  destruct Hrepair as (_ & Hok & Hall).
  - reflexivity.
  - intros id [v Hv]. unfold world_with, exporter_with, interrupted_index in Hv.
    simpl in Hv. destruct (decide (id = 3)) as [->|H3]; [lia|].
    destruct (decide (id = 7)) as [->|H7]; [lia|].
    rewrite lookup_insert_ne, lookup_singleton_ne in Hv by congruence.
    discriminate Hv.
  - lia.
  - reflexivity.
  - simpl. lia.
  - rewrite Hok; [reflexivity|]. apply Hall. reflexivity.
Defined.

(** ** The main loop *)

Section MainLoop.

Context {S : Type} `{IssueService S}.

Lemma Start_main_unfold (w : World S) :
  Start_main w = for_each (_issue_json_data (self w)) Start_issue (begin_main w).
Proof. reflexivity. Qed.

Lemma Start_unfold (w : World S) :
  Start w = match Start_repair w with
            | (Ok _, w1) => Start_main w1
            | (Raise e, w1) => (Raise e, w1)
            end.
Proof. reflexivity. Qed.

Lemma Start_issue_skip (w : World S) (issue : Issue) (previous : PreviousIssue) :
  _previously_created_issues (self w) !! issue_id issue = Some previous ->
  Start_issue issue w = (Ok tt, skipped 1 w).
Proof.
  intros Hin. unfold Start_issue. run.
  unfold GoogleCodeIssue.GetId. simpl. rewrite Hin. reflexivity.
Qed.

Lemma Start_issue_mismatch (w : World S) (issue : Issue) (n : Z) (s1 : S) :
  _previously_created_issues (self w) !! issue_id issue = None ->
  CreateIssue (googlecode_issue (self w) issue) (service w) = (Ok n, s1) ->
  0 <= n -> n <> issue_id issue ->
  Start_issue issue w
  = (Raise (RuntimeError (mismatch_message issue n)),
     {| self := set_issue_number (_issue_number (self w) + 1) (self w);
        service := s1;
        calls := (calls w ++ [CallCreateIssue (googlecode_issue (self w) issue)])%list |}).
Proof.
  intros Hnew Hcreate Hpos Hne. unfold Start_issue. run.
  unfold GoogleCodeIssue.GetId. simpl. rewrite Hnew.
  unfold _CreateIssue, invoke. simpl.
  change (googlecode_issue
            (set_issue_number (_issue_number (self w) + 1) (self w)) issue)
    with (googlecode_issue (self w) issue).
  rewrite Hcreate.
  destruct (Z.ltb_spec n 0) as [Hneg|_]; [lia|].
  destruct (Z.eqb_spec n (issue_id issue)) as [Heq|_]; [contradiction|].
  reflexivity.
Qed.

(** C2.  An issue that is not in the index and for which [CreateIssue]
    answers a number that is not negative and is not the source id ends
    the run with a [RuntimeError] naming both numbers: the loop, and with
    it [Start], stops at that issue, and the last call made is that
    [CreateIssue], so no [CreateComment] call is made for the issue. *)
Theorem Start_aborts_on_issue_number_mismatch
    (w : World S) (issue : Issue) (n : Z) (s1 : S) :
  _previously_created_issues (self w) !! issue_id issue = None ->
  CreateIssue (googlecode_issue (self w) issue) (service w) = (Ok n, s1) ->
  0 <= n -> n <> issue_id issue ->
  let aborted :=
    (Raise (RuntimeError (mismatch_message issue n)),
     {| self := set_issue_number (_issue_number (self w) + 1) (self w);
        service := s1;
        calls := (calls w ++ [CallCreateIssue (googlecode_issue (self w) issue)])%list |}) in
  Start_issue issue w = aborted
  /\ (forall (done rest : list Issue) (w0 : World S),
        for_each done Start_issue w0 = (Ok tt, w) ->
        for_each (done ++ issue :: rest) Start_issue w0 = aborted)
  /\ (forall (done rest : list Issue) (w0 w1 : World S),
        _issue_json_data (self w1) = (done ++ issue :: rest)%list ->
        Start_repair w0 = (Ok tt, w1) ->
        for_each done Start_issue (begin_main w1) = (Ok tt, w) ->
        Start w0 = aborted).
Proof.
  intros Hnew Hcreate Hpos Hne aborted.
  pose proof (Start_issue_mismatch w issue n s1 Hnew Hcreate Hpos Hne) as Hstep.
  assert (Hloop : forall (done rest : list Issue) (w0 : World S),
             for_each done Start_issue w0 = (Ok tt, w) ->
             for_each (done ++ issue :: rest) Start_issue w0 = aborted).
  { intros done rest w0 Hdone. rewrite for_each_app, Hdone. simpl.
    unfold bind. now rewrite Hstep. }
  split; [exact Hstep|]. split; [exact Hloop|].
  intros done rest w0 w1 Hdata Hrepair Hdone.
  rewrite Start_unfold, Hrepair, Start_main_unfold, Hdata.
  now apply Hloop.
Qed.

End MainLoop.

Lemma Start_aborts_on_issue_number_mismatch_witness :
  @Start _ memory_service
     (world_with [issue_3; issue_7; issue_8; issue_9] interrupted_index (empty_target 9))
  = (Raise (RuntimeError "Google Code and GitHub issue nos mismatch at #8 (got 9)"),
     (@Start _ memory_service
        (world_with [issue_3; issue_7; issue_8; issue_9] interrupted_index
                    (empty_target 9))).2).
Proof.
  pose (w0 := world_with [issue_3; issue_7; issue_8; issue_9] interrupted_index
                (empty_target 9)).
  pose (w1 := (@Start_repair _ memory_service w0).2).
  pose (w := (@for_each _ _ [issue_3; issue_7] (@Start_issue _ memory_service)
                (begin_main w1)).2).
  pose proof (@Start_aborts_on_issue_number_mismatch _ memory_service
                w issue_8 9 (empty_target 10)) as Habort.
  cbv zeta in Habort.
  assert (Hnew : _previously_created_issues (self w) !! issue_id issue_8 = None)
    by reflexivity.
  assert (Hcreate : @CreateIssue _ memory_service
                      (googlecode_issue (self w) issue_8) (service w)
                    = (Ok 9, empty_target 10)) by reflexivity.
  destruct (Habort Hnew Hcreate ltac:(lia) ltac:(simpl; lia)) as (_ & _ & Hstart).
  fold w0.
  rewrite (Hstart [issue_3; issue_7] [issue_9] w0 w1);
    [reflexivity | reflexivity | reflexivity | reflexivity].
Defined.

(** ** Comment replay, closing and skipping *)

Section Replay.

Context {S : Type} `{IssueService S}.

Lemma same_but_comment_progress_refl (e : t) : same_but_comment_progress e e.
Proof. exists (_comment_number e), (_comment_total e). now destruct e. Qed.

Lemma same_but_comment_progress_project (e e' : t) :
  same_but_comment_progress e e' -> _project_name e' = _project_name e.
Proof. intros (cn & ct & ->). reflexivity. Qed.

(** The loop of [_CreateComments], from any value of the counters. *)
Lemma CreateComments_loop (comments : list Comment) (issue_number : Z)
    (gi : GoogleCodeIssue.t) (w : World S) :
  let body := fun comment =>
    update_self (fun e => set_comment_number (_comment_number e + 1) e) ;;
    e <- get_self ;;
    invoke (CallCreateComment issue_number (GoogleCodeIssue.GetId gi)
              (GoogleCodeComment.new gi comment) (_project_name e))
           (CreateComment issue_number (GoogleCodeIssue.GetId gi)
              (GoogleCodeComment.new gi comment) (_project_name e)) in
  let rw := for_each comments body w in
  let call := comment_call gi issue_number (_project_name (self w)) in
  same_but_comment_progress (self w) (self rw.2)
  /\ (exists k, calls rw.2 = (calls w ++ List.map call (take k comments))%list)
  /\ (rw.1 = Ok tt -> calls rw.2 = (calls w ++ List.map call comments)%list)
  /\ ((forall n sid c p s, (CreateComment n sid c p s).1 = Ok tt) -> rw.1 = Ok tt).
Proof.
  intros body. cbv zeta.
  assert (Hstep : forall comment comments w,
    for_each (comment :: comments) body w
    = match CreateComment issue_number (GoogleCodeIssue.GetId gi)
              (GoogleCodeComment.new gi comment) (_project_name (self w))
              (service w) with
      | (Ok _, s1) =>
          for_each comments body
            {| self := set_comment_number (_comment_number (self w) + 1) (self w);
               service := s1;
               calls := (calls w ++ [comment_call gi issue_number
                                       (_project_name (self w)) comment])%list |}
      | (Raise e, s1) =>
          (Raise e,
           {| self := set_comment_number (_comment_number (self w) + 1) (self w);
              service := s1;
              calls := (calls w ++ [comment_call gi issue_number
                                      (_project_name (self w)) comment])%list |})
      end).
  { intros comment comments' w'.
    change (for_each (comment :: comments') body w')
      with (bind (body comment) (fun _ => for_each comments' body) w').
    unfold bind at 1. unfold body at 1. unfold bind, update_self, get_self, invoke.
    simpl.
    destruct (CreateComment issue_number (GoogleCodeIssue.GetId gi)
                (GoogleCodeComment.new gi comment) (_project_name (self w'))
                (service w')) as [[[]|e] s1]; reflexivity. }
  revert w. induction comments as [|comment comments IH]; intros w.
  - simpl. split; [apply same_but_comment_progress_refl|].
    split; [|split]; try reflexivity.
    + exists O. simpl. now rewrite app_nil_r.
    + now rewrite app_nil_r.
  - rewrite Hstep.
    destruct (CreateComment issue_number (GoogleCodeIssue.GetId gi)
                (GoogleCodeComment.new gi comment) (_project_name (self w))
                (service w)) as [[[]|e] s1] eqn:Hop.
    + match goal with
      | |- context [for_each comments body ?w1] => specialize (IH w1)
      end.
      simpl in IH. destruct IH as (Hsame & [k Hk] & Hok & Hall).
      split; [|split; [|split]].
      * destruct Hsame as (cn & ct & Hsame). exists cn, ct. rewrite Hsame.
        now destruct (self w).
      * exists (Datatypes.S k). rewrite Hk, <- app_assoc. reflexivity.
      * intros Hr. rewrite (Hok Hr), <- app_assoc. reflexivity.
      * exact Hall.
    + simpl. split; [|split; [|split]].
      * exists (_comment_number (self w) + 1), (_comment_total (self w)).
        now destruct (self w).
      * exists 1%nat. simpl. now destruct comments.
      * discriminate.
      * intros Hall. specialize (Hall issue_number (GoogleCodeIssue.GetId gi)
                                   (GoogleCodeComment.new gi comment)
                                   (_project_name (self w)) (service w)).
        rewrite Hop in Hall. discriminate Hall.
Qed.

Lemma CreateComments_calls (comments : list Comment) (issue_number : Z)
    (gi : GoogleCodeIssue.t) (w : World S) :
  let rw := _CreateComments comments issue_number gi w in
  let call := comment_call gi issue_number (_project_name (self w)) in
  same_but_comment_progress (self w) (self rw.2)
  /\ (exists k, calls rw.2 = (calls w ++ List.map call (take k comments))%list)
  /\ (rw.1 = Ok tt -> calls rw.2 = (calls w ++ List.map call comments)%list)
  /\ ((forall n sid c p s, (CreateComment n sid c p s).1 = Ok tt) -> rw.1 = Ok tt).
Proof.
  cbv zeta.
  pose proof (CreateComments_loop comments issue_number gi
                {| self := set_comment_number 0
                             (set_comment_total (Z.of_nat (length comments)) (self w));
                   service := service w; calls := calls w |}) as Hloop.
  cbv zeta in Hloop. simpl in Hloop. destruct Hloop as (Hsame & Hk & Hok & Hall).
  split; [|split; [|split]]; assumption.
Qed.

End Replay.

Section Closing.

Context {S : Type} `{IssueService S}.

(** What [Start_issue] does once [CreateIssue] has answered the source
    id: the comments, then the closing. *)
Lemma Start_issue_created (w : World S) (issue : Issue) (s1 : S) :
  _previously_created_issues (self w) !! issue_id issue = None ->
  CreateIssue (googlecode_issue (self w) issue) (service w)
  = (Ok (issue_id issue), s1) ->
  0 <= issue_id issue ->
  Start_issue issue w
  = (_CreateComments
       (GoogleCodeIssue.GetComments (googlecode_issue (self w) issue))
       (issue_id issue) (googlecode_issue (self w) issue) ;;
     if negb (GoogleCodeIssue.IsOpen (googlecode_issue (self w) issue))
     then invoke (CallCloseIssue (issue_id issue)) (CloseIssue (issue_id issue))
     else ret tt)
      {| self := set_issue_number (_issue_number (self w) + 1) (self w);
         service := s1;
         calls := (calls w ++ [CallCreateIssue (googlecode_issue (self w) issue)])%list |}.
Proof.
  intros Hnew Hcreate Hpos. unfold Start_issue. run.
  unfold GoogleCodeIssue.GetId. simpl. rewrite Hnew.
  unfold _CreateIssue, invoke. simpl. rewrite Hcreate.
  destruct (Z.ltb_spec (issue_id issue) 0) as [Hneg|_]; [lia|].
  rewrite Z.eqb_refl. reflexivity.
Qed.

Lemma comment_call_not_close (gi : GoogleCodeIssue.t) (n : Z) (p : string)
    (comments : list Comment) :
  Forall (fun call => is_CloseIssue call = false)
         (List.map (comment_call gi n p) comments).
Proof. induction comments; simpl; constructor; [reflexivity | assumption]. Qed.

(** The calls [Start_issue] makes for one issue: either none of them is
    [CloseIssue], or the issue is not open and they are the creation,
    every comment in order, and last the closing. *)
Lemma Start_issue_calls (w : World S) (issue : Issue) :
  let gi := googlecode_issue (self w) issue in
  let rw := Start_issue issue w in
  exists cs,
    calls rw.2 = (calls w ++ cs)%list
    /\ (Forall (fun call => is_CloseIssue call = false) cs
        \/ (GoogleCodeIssue.IsOpen gi = false
            /\ cs = (CallCreateIssue gi
                       :: List.map (comment_call gi (issue_id issue)
                                      (_project_name (self w)))
                                   (GoogleCodeIssue.GetComments gi)
                       ++ [CallCloseIssue (issue_id issue)])%list)).
Proof.
  cbv zeta. set (gi := googlecode_issue (self w) issue).
  destruct (_previously_created_issues (self w) !! issue_id issue)
    as [previous|] eqn:Hindex.
  { rewrite (Start_issue_skip w issue previous Hindex). exists []. simpl.
    rewrite app_nil_r. split; [reflexivity | left; constructor]. }
  destruct (CreateIssue gi (service w)) as [[n|e] s1] eqn:Hcreate.
  2:{ exists [CallCreateIssue gi]. split; [|left; repeat constructor].
      unfold Start_issue. run. unfold GoogleCodeIssue.GetId. simpl.
      rewrite Hindex. unfold _CreateIssue, invoke. simpl. fold gi.
      now rewrite Hcreate. }
  destruct (Z.ltb_spec n 0) as [Hneg|Hpos].
  { exists [CallCreateIssue gi]. split; [|left; repeat constructor].
    unfold Start_issue. run. unfold GoogleCodeIssue.GetId. simpl.
    rewrite Hindex. unfold _CreateIssue, invoke. simpl. fold gi.
    rewrite Hcreate. destruct (Z.ltb_spec n 0); [reflexivity | lia]. }
  destruct (Z.eq_dec n (issue_id issue)) as [->|Hne].
  2:{ exists [CallCreateIssue gi]. split; [|left; repeat constructor].
      now rewrite (Start_issue_mismatch w issue n s1 Hindex Hcreate Hpos Hne). }
  rewrite (Start_issue_created w issue s1 Hindex Hcreate Hpos). fold gi.
  unfold bind.
  match goal with
  | |- context [_CreateComments ?cs ?n ?g ?w1] =>
      pose proof (CreateComments_calls cs n g w1) as Hreplay;
      destruct (_CreateComments cs n g w1) as [[[]|e] w2]
  end; cbv zeta in Hreplay; simpl in Hreplay;
    destruct Hreplay as (_ & [k Hk] & Hok & _).
  - specialize (Hok eq_refl).
    destruct (GoogleCodeIssue.IsOpen gi) eqn:Hopen; simpl.
    + unfold ret. simpl. eexists. split; [rewrite Hok, <- app_assoc; reflexivity|].
      left. constructor; [reflexivity | apply comment_call_not_close].
    + unfold invoke. destruct (CloseIssue (issue_id issue) (service w2)) as [r s3].
      simpl. eexists. split; [rewrite Hok, <- !app_assoc; reflexivity|].
      right. split; reflexivity.
  - simpl. eexists. split; [rewrite Hk, <- app_assoc; reflexivity|].
    left. constructor; [reflexivity | apply comment_call_not_close].
Qed.

End Closing.

(** ** Status and closing *)

Section Status.

Context {S : Type} `{IssueService S}.

Lemma GetStatus_open_iff (gi : GoogleCodeIssue.t) :
  GoogleCodeIssue.GetStatus gi = "open"
  <-> lower (issue_status (GoogleCodeIssue._issue gi)) = "accepted"
      \/ lower (issue_status (GoogleCodeIssue._issue gi)) = "open".
Proof.
  unfold GoogleCodeIssue.GetStatus.
  destruct (String.eqb_spec (lower (issue_status (GoogleCodeIssue._issue gi)))
                            "accepted") as [Heq|Hne].
  - split; [now left | reflexivity].
  - split; [now right | intros [Ha|Ho]; [contradiction | exact Ho]].
Qed.

(** C4, as the code has it.  [GetStatus] gives [open] for the status
    [accepted] and for [open].  Whether the main loop closes an issue it
    has created is decided by [IsOpen], which reads the [state] field and
    not the status: a [CloseIssue] call is made only for an issue that is
    not open, as the last call and behind the creation and every comment
    in order; an open issue gets none; and when the creation answers the
    source id and no comment call raises, an issue that is not open does
    get it. *)
Theorem Start_issue_closes_unless_open (w : World S) (issue : Issue) :
  let gi := googlecode_issue (self w) issue in
  let rw := Start_issue issue w in
  let replay :=
    (CallCreateIssue gi
       :: List.map (comment_call gi (issue_id issue) (_project_name (self w)))
                   (GoogleCodeIssue.GetComments gi))%list in
  (issue_status issue = "accepted" -> GoogleCodeIssue.GetStatus gi = "open")
  /\ (issue_status issue = "open" -> GoogleCodeIssue.GetStatus gi = "open")
  /\ (exists cs,
        calls rw.2 = (calls w ++ cs)%list
        /\ (Forall (fun call => is_CloseIssue call = false) cs
            \/ (GoogleCodeIssue.IsOpen gi = false
                /\ cs = (replay ++ [CallCloseIssue (issue_id issue)])%list)))
  /\ (forall s1 : S,
        _previously_created_issues (self w) !! issue_id issue = None ->
        CreateIssue gi (service w) = (Ok (issue_id issue), s1) ->
        0 <= issue_id issue ->
        (forall n sid c p s, (CreateComment n sid c p s).1 = Ok tt) ->
        calls rw.2
        = (calls w ++ replay
             ++ (if GoogleCodeIssue.IsOpen gi then []
                 else [CallCloseIssue (issue_id issue)]))%list).
Proof.
  cbv zeta. set (gi := googlecode_issue (self w) issue).
  split; [|split; [|split]].
  - intros Hstatus. apply GetStatus_open_iff. left. simpl. now rewrite Hstatus.
  - intros Hstatus. apply GetStatus_open_iff. right. simpl. now rewrite Hstatus.
  - exact (Start_issue_calls w issue).
  - intros s1 Hnew Hcreate Hpos Hnever.
    rewrite (Start_issue_created w issue s1 Hnew Hcreate Hpos). fold gi.
    unfold bind.
    match goal with
    | |- context [_CreateComments ?cs ?n ?g ?w1] =>
        pose proof (CreateComments_calls cs n g w1) as Hreplay;
        destruct (_CreateComments cs n g w1) as [[[]|e] w2]
    end; cbv zeta in Hreplay; simpl in Hreplay;
      destruct Hreplay as (_ & _ & Hok & Hall).
    + specialize (Hok eq_refl).
      destruct (GoogleCodeIssue.IsOpen gi); simpl.
      * unfold ret. simpl. rewrite Hok, <- app_assoc, app_nil_r. reflexivity.
      * unfold invoke. destruct (CloseIssue (issue_id issue) (service w2)) as [r s3].
        simpl. rewrite Hok, <- !app_assoc. reflexivity.
    + specialize (Hall Hnever). discriminate Hall.
Qed.

End Status.

Lemma Start_issue_closes_unless_open_witness :
  calls (@Start_issue _ memory_service issue_9 (fresh_world [issue_9] 9)).2
  = [ CallCreateIssue (sample_googlecode_issue issue_9);
      comment_call (sample_googlecode_issue issue_9) 9 "proj"
        (sample_comment 1 "Done." None);
      CallCloseIssue 9 ].
Proof.
  pose proof (@Start_issue_closes_unless_open _ memory_service
                (fresh_world [issue_9] 9) issue_9) as Hclose.
  cbv zeta in Hclose. destruct Hclose as (_ & _ & _ & Hcalls).
  rewrite (Hcalls (empty_target 10)); [reflexivity | reflexivity | reflexivity | | ].
  - simpl. lia.
  - reflexivity.
Defined.

(** C4 as stated fails.  Issue 8 has the status [New], which [GetStatus]
    does not give as [open], and the state [open]: it is created, its
    comment is replayed, and no [CloseIssue] call is made.  Issue 9 has
    the status [Accepted], which [GetStatus] gives as [open], and the
    state [closed]: it is closed. *)
Lemma status_does_not_decide_closing :
  GoogleCodeIssue.GetStatus (sample_googlecode_issue issue_8) <> "open"
  /\ (@Start_issue _ memory_service issue_8 (fresh_world [issue_8] 8)).1 = Ok tt
  /\ List.map is_CloseIssue
       (calls (@Start_issue _ memory_service issue_8 (fresh_world [issue_8] 8)).2)
     = [false; false]
  /\ GoogleCodeIssue.GetStatus (sample_googlecode_issue issue_9) = "open"
  /\ List.map is_CloseIssue
       (calls (@Start_issue _ memory_service issue_9 (fresh_world [issue_9] 9)).2)
     = [false; false; true].
Proof.
  split; [|split; [|split; [|split]]]; try reflexivity.
  intros Heq. vm_compute in Heq. discriminate Heq.
Qed.

(** ** Skipping what an earlier run created *)

Section Skip.

Context {S : Type} `{IssueService S}.

Lemma skipped_zero (w : World S) : skipped 0 w = w.
Proof.
  destruct w as [e s cs]. destruct e. unfold skipped. simpl.
  unfold set_skipped_issues, set_issue_number. simpl.
  now rewrite !Z.add_0_r.
Qed.

Lemma skipped_skipped (n m : Z) (w : World S) :
  skipped n (skipped m w) = skipped (m + n) w.
Proof.
  destruct w as [e s cs]. destruct e. unfold skipped. simpl.
  unfold set_skipped_issues, set_issue_number. simpl.
  now rewrite !Z.add_assoc.
Qed.

(** A stretch of the archive that is all in the index: the loop only
    counts. *)
Lemma for_each_skip (issues : list Issue) (w : World S) :
  (forall issue, issue ∈ issues ->
     is_Some (_previously_created_issues (self w) !! issue_id issue)) ->
  for_each issues Start_issue w = (Ok tt, skipped (Z.of_nat (length issues)) w).
Proof.
  revert w. induction issues as [|issue issues IH]; intros w Hall.
  - simpl. unfold ret. now rewrite skipped_zero.
  - destruct (Hall issue) as [previous Hprevious]; [apply elem_of_cons; now left|].
    change (for_each (issue :: issues) Start_issue w)
      with (bind (Start_issue issue) (fun _ => for_each issues Start_issue) w).
    unfold bind. rewrite (Start_issue_skip w issue previous Hprevious).
    rewrite IH.
    + rewrite skipped_skipped. do 2 f_equal. simpl length. lia.
    + intros issue' Hin. simpl. apply Hall, elem_of_cons. now right.
Qed.

(** The loop of the repair pass changes no field of the exporter and
    makes [CreateComment] calls only. *)
Lemma repair_calls (comments : list Comment) (idxs : list Z)
    (call : Comment -> Call) (op : Comment -> S -> result unit * S) (w : World S) :
  (forall comment, is_CreateComment (call comment) = true) ->
  let rw := for_each idxs
              (fun idx => comment <- lift (py_index comments idx) ;;
                          invoke (call comment) (op comment)) w in
  self rw.2 = self w
  /\ exists cs, calls rw.2 = (calls w ++ cs)%list
                /\ Forall (fun c => is_CreateComment c = true) cs.
Proof.
  intros Hcall. cbv zeta.
  set (body := fun idx => comment <- lift (py_index comments idx) ;;
                          invoke (call comment) (op comment)).
  assert (Hstep : forall idx idxs w,
    for_each (idx :: idxs) body w
    = match py_index comments idx with
      | Ok comment =>
          match op comment (service w) with
          | (Ok _, s1) =>
              for_each idxs body
                {| self := self w; service := s1;
                   calls := (calls w ++ [call comment])%list |}
          | (Raise e, s1) =>
              (Raise e, {| self := self w; service := s1;
                           calls := (calls w ++ [call comment])%list |})
          end
      | Raise e => (Raise e, w)
      end).
  { intros idx idxs' w'.
    change (for_each (idx :: idxs') body w')
      with (bind (body idx) (fun _ => for_each idxs' body) w').
    unfold bind at 1. unfold body at 1. unfold bind, lift, invoke.
    destruct (py_index comments idx) as [comment|e]; [|reflexivity].
    destruct (op comment (service w')) as [[[]|e] s1]; reflexivity. }
  revert w. induction idxs as [|idx idxs IH]; intros w.
  - simpl. split; [reflexivity|]. exists []. now rewrite app_nil_r.
  - rewrite Hstep.
    destruct (py_index comments idx) as [comment|e].
    + destruct (op comment (service w)) as [[[]|e] s1].
      * match goal with
        | |- context [for_each idxs body ?w1] => specialize (IH w1)
        end.
        simpl in IH. destruct IH as (Hself & cs & Hcs & Hforall).
        split; [exact Hself|]. exists (call comment :: cs).
        split; [rewrite Hcs, <- app_assoc; reflexivity|].
        constructor; [apply Hcall | exact Hforall].
      * simpl. split; [reflexivity|]. exists [call comment].
        split; [reflexivity|]. constructor; [apply Hcall | constructor].
    + simpl. split; [reflexivity|]. exists []. now rewrite app_nil_r.
Qed.

Lemma Start_repair_calls (w : World S) :
  self (Start_repair w).2 = self w
  /\ exists cs, calls (Start_repair w).2 = (calls w ++ cs)%list
                /\ Forall (fun c => is_CreateComment c = true) cs.
Proof.
  assert (Hnone : forall (r : result unit),
            self (r, w).2 = self w
            /\ exists cs, calls (r, w).2 = (calls w ++ cs)%list
                          /\ Forall (fun c => is_CreateComment c = true) cs).
  { intros r. split; [reflexivity|]. exists []. simpl. now rewrite app_nil_r. }
  unfold Start_repair, bind, get_self.
  destruct (size (_previously_created_issues (self w)) =? 0)%nat; [apply Hnone|].
  destruct (_previously_created_issues (self w)
              !! last_issue_id (_previously_created_issues (self w)))
    as [last|]; [|apply Hnone].
  unfold ret.
  destruct (find_issue (_issue_json_data (self w))
              (last_issue_id (_previously_created_issues (self w))) last)
    as [issue|]; [|apply Hnone].
  destruct (negb (comment_count last =? _)); [|apply Hnone].
  apply (repair_calls _ _
           (fun comment => CallCreateComment _ _ (GoogleCodeComment.new _ comment) _)
           (fun comment => CreateComment _ _ (GoogleCodeComment.new _ comment) _)).
  reflexivity.
Qed.

(** C3.  An issue whose id is a key of the index is skipped: the issue
    counter and [_skipped_issues] go up by one and no call is made on the
    service.  A run of [Start] over an archive all of whose ids are in the
    index makes no [CreateIssue] call: what it calls are the
    [CreateComment] calls of the repair pass, and when it ends normally it
    has skipped every issue. *)
Theorem Start_skips_previously_created (w : World S) :
  (forall (issue : Issue) (previous : PreviousIssue),
     _previously_created_issues (self w) !! issue_id issue = Some previous ->
     Start_issue issue w = (Ok tt, skipped 1 w))
  /\ ((forall issue, issue ∈ _issue_json_data (self w) ->
         is_Some (_previously_created_issues (self w) !! issue_id issue)) ->
      (exists cs,
         calls (Start w).2 = (calls w ++ cs)%list
         /\ Forall (fun c => is_CreateComment c = true /\ is_CreateIssue c = false) cs)
      /\ ((Start w).1 = Ok tt ->
          _skipped_issues (self (Start w).2)
          = Z.of_nat (length (_issue_json_data (self w))))
      /\ Start_main w
         = (Ok tt, skipped (Z.of_nat (length (_issue_json_data (self w))))
                     (begin_main w))).
Proof.
  split; [intros issue previous; apply Start_issue_skip|].
  intros Hall.
  assert (Hmain : forall w1, self w1 = self w ->
            Start_main w1
            = (Ok tt, skipped (Z.of_nat (length (_issue_json_data (self w))))
                        (begin_main w1))).
  { intros w1 Hself. rewrite Start_main_unfold, Hself. apply for_each_skip.
    intros issue Hin. simpl. rewrite Hself. now apply Hall. }
  destruct (Start_repair_calls w) as (Hself & cs & Hcs & Hforall).
  rewrite Start_unfold.
  destruct (Start_repair w) as [[[]|e] w1] eqn:Hrepair; simpl in Hself, Hcs.
  - rewrite (Hmain w1 Hself). simpl. split; [|split].
    + exists cs. split; [exact Hcs|].
      eapply Forall_impl; [exact Hforall|]. intros [] Hc; try discriminate Hc.
      now split.
    + intros _. simpl. lia.
    + now apply Hmain.
  - simpl. split; [|split].
    + exists cs. split; [exact Hcs|].
      eapply Forall_impl; [exact Hforall|]. intros [] Hc; try discriminate Hc.
      now split.
    + discriminate.
    + now apply Hmain.
Qed.

End Skip.

Lemma Start_skips_previously_created_witness :
  calls (@Start _ memory_service
           (world_with [issue_3; issue_7] interrupted_index (empty_target 8))).2
  = [ comment_call (sample_googlecode_issue issue_7) 7 "proj"
        (sample_comment 2 "See #5." None);
      comment_call (sample_googlecode_issue issue_7) 7 "proj"
        (sample_comment 3 "" None) ]
  /\ _skipped_issues
       (self (@Start _ memory_service
                (world_with [issue_3; issue_7] interrupted_index (empty_target 8))).2)
     = 2.
Proof.
  pose proof (@Start_skips_previously_created _ memory_service
                (world_with [issue_3; issue_7] interrupted_index (empty_target 8)))
    as [_ Hrun].
  destruct Hrun as (_ & Hskipped & _).
  - intros issue Hin. simpl in Hin.
    apply elem_of_cons in Hin as [->|Hin]; [now exists {| title := "Typo"; comment_count := 0 |}|].
    apply elem_of_cons in Hin as [->|Hin];
      [now exists {| title := "Crash on start"; comment_count := 1 |}|].
    inversion Hin.
  - split; [reflexivity|]. rewrite Hskipped; reflexivity.
Defined.

(** ** Initialisation *)

Section Initialisation.

Context {S : Type} `{IssueService S}.

Lemma die_raises_NameError {A : Type} (msg : string) (w : World S) :
  @die S A msg w = (Raise (NameError "die"), w).
Proof. reflexivity. Qed.

Lemma with_index_same (w : World S) :
  with_index (_previously_created_issues (self w)) w = w.
Proof. destruct w as [e s cs]. now destruct e. Qed.

(** The loop of [_GetAllPreviousIssues] records the entries up to the
    first one whose id is already a key, and stops there with the
    [NameError] of the undefined [die]. *)
Lemma record_loop (issues : list TargetIssue) (w : World S) :
  let body := fun issue : TargetIssue =>
    e <- get_self ;;
    match _previously_created_issues e !! target_id issue with
    | None => ret tt
    | Some _ => die "GitHub returned multiple issues with the same ID?"
    end ;;
    update_self (fun e =>
      set_previously_created_issues
        (<[target_id issue :=
             {| title := target_title issue;
                comment_count := target_comments issue |}]>
           (_previously_created_issues e)) e) in
  (forall recorded duplicate rest,
     issues = (recorded ++ duplicate :: rest)%list ->
     NoDup (target_id <$> recorded) ->
     (forall issue, issue ∈ recorded ->
        _previously_created_issues (self w) !! target_id issue = None) ->
     is_Some (record_issues recorded (_previously_created_issues (self w))
                !! target_id duplicate) ->
     for_each issues body w
     = (Raise (NameError "die"),
        with_index (record_issues recorded (_previously_created_issues (self w))) w))
  /\ (NoDup (target_id <$> issues) ->
      (forall issue, issue ∈ issues ->
         _previously_created_issues (self w) !! target_id issue = None) ->
      for_each issues body w
      = (Ok tt, with_index (record_issues issues (_previously_created_issues (self w))) w)).
Proof.
  intros body.
  assert (Hstep : forall issue w,
    body issue w
    = match _previously_created_issues (self w) !! target_id issue with
      | None =>
          (Ok tt,
           with_index (<[target_id issue :=
                           {| title := target_title issue;
                              comment_count := target_comments issue |}]>
                         (_previously_created_issues (self w))) w)
      | Some _ => (Raise (NameError "die"), w)
      end).
  { intros issue w'. unfold body, bind, get_self.
    destruct (_previously_created_issues (self w') !! target_id issue); reflexivity. }
  assert (Hfresh : forall issues w,
    NoDup (target_id <$> issues) ->
    (forall issue, issue ∈ issues ->
       _previously_created_issues (self w) !! target_id issue = None) ->
    for_each issues body w
    = (Ok tt, with_index (record_issues issues (_previously_created_issues (self w))) w)).
  { clear w issues. intros issues.
    induction issues as [|issue issues IH]; intros w Hnodup Hnew.
    - simpl. unfold ret. now rewrite with_index_same.
    - change (for_each (issue :: issues) body w)
        with (bind (body issue) (fun _ => for_each issues body) w).
      unfold bind. rewrite Hstep, (Hnew issue) by (apply elem_of_cons; now left).
      rewrite fmap_cons in Hnodup. apply NoDup_cons in Hnodup as [Hnotin Hnodup].
      rewrite IH; [reflexivity | exact Hnodup |].
      intros issue' Hin. simpl. rewrite lookup_insert_ne.
      + apply Hnew, elem_of_cons. now right.
      + intros Heq. apply Hnotin. rewrite Heq. apply list_elem_of_fmap.
        now exists issue'. }
  split; [|apply Hfresh].
  intros recorded duplicate rest -> Hnodup Hnew [previous Hprevious].
  rewrite for_each_app, (Hfresh recorded w Hnodup Hnew).
  change (for_each (duplicate :: rest) body ?w1)
    with (bind (body duplicate) (fun _ => for_each rest body) w1).
  unfold bind. rewrite Hstep. simpl. now rewrite Hprevious.
Qed.

Lemma record_issues_first (recorded : list TargetIssue) (first : TargetIssue)
    (index : gmap Z PreviousIssue) :
  target_id first ∉ target_id <$> recorded ->
  record_issues recorded
    (<[target_id first := {| title := target_title first;
                             comment_count := target_comments first |}]> index)
    !! target_id first
  = Some {| title := target_title first; comment_count := target_comments first |}.
Proof.
  revert index. induction recorded as [|issue recorded IH]; intros index Hnotin.
  - simpl. apply lookup_insert_eq.
  - simpl. rewrite fmap_cons in Hnotin. apply not_elem_of_cons in Hnotin as [Hne Hnotin].
    rewrite insert_insert_ne by congruence. now apply IH.
Qed.

(** When the lists of open and closed issues hold two entries with one
    id, [Init] ends with the [NameError]; the index keeps what the first
    entry recorded. *)
Lemma Init_duplicate_id (w : World S) (open_issues closed_issues : list TargetIssue)
    (s1 s2 : S) (before between rest : list TargetIssue) (first second : TargetIssue) :
  GetIssues "open" (service w) = (Ok open_issues, s1) ->
  GetIssues "closed" s1 = (Ok closed_issues, s2) ->
  _previously_created_issues (self w) = ∅ ->
  (open_issues ++ closed_issues)%list
  = (before ++ first :: between ++ second :: rest)%list ->
  target_id first = target_id second ->
  NoDup (target_id <$> (before ++ first :: between)%list) ->
  (Init w).1 = Raise (NameError "die")
  /\ _previously_created_issues (self (Init w).2) !! target_id first
     = Some {| title := target_title first; comment_count := target_comments first |}.
Proof.
  intros Hopen Hclosed Hempty Hlists Hsame Hnodup.
  set (w2 := {| self := self w; service := s2;
                calls := ((calls w ++ [CallGetIssues "open"])
                            ++ [CallGetIssues "closed"])%list |}).
  pose proof (proj1 (record_loop (open_issues ++ closed_issues)%list w2)
                (before ++ first :: between)%list second rest) as Hloop.
  cbv zeta in Hloop. simpl self in Hloop. rewrite Hempty in Hloop.
  assert (Hrun : Init w = for_each (open_issues ++ closed_issues)%list
    (fun issue : TargetIssue =>
       e <- get_self ;;
       match _previously_created_issues e !! target_id issue with
       | None => ret tt
       | Some _ => die "GitHub returned multiple issues with the same ID?"
       end ;;
       update_self (fun e =>
         set_previously_created_issues
           (<[target_id issue :=
                {| title := target_title issue;
                   comment_count := target_comments issue |}]>
              (_previously_created_issues e)) e)) w2).
  { unfold Init, _GetAllPreviousIssues.
    unfold bind at 1. unfold invoke at 1. rewrite Hopen.
    unfold bind at 1. unfold invoke at 1. simpl service. rewrite Hclosed.
    reflexivity. }
  rewrite Hrun.
  assert (Hfirst : record_issues (before ++ first :: between) ∅ !! target_id first
                   = Some {| title := target_title first;
                             comment_count := target_comments first |}).
  { unfold record_issues. rewrite fold_left_app. simpl.
    apply record_issues_first.
    rewrite fmap_app, fmap_cons in Hnodup.
    apply NoDup_app in Hnodup as (_ & _ & Hnodup).
    now apply NoDup_cons in Hnodup as [Hnotin _]. }
  rewrite Hloop.
  - simpl. split; [reflexivity | exact Hfirst].
  - now rewrite Hlists, <- app_assoc.
  - exact Hnodup.
  - intros issue _. apply lookup_empty.
  - rewrite <- Hsame, Hfirst. now eexists.
Qed.

End Initialisation.

(** C7.  On a target that lists issue 7 twice, [Init] ends with
    [NameError] for the name [die], which the module never defines: the
    run is aborted and the first entry stays in the index, but the error
    is not one that carries the message written at the call. *)
Theorem Init_duplicate_raises_NameError :
  (@Init _ memory_service (world_with [issue_7] ∅ duplicated_target)).1
  = Raise (NameError "die")
  /\ (forall e : exn,
        (@Init _ memory_service (world_with [issue_7] ∅ duplicated_target)).1 = Raise e ->
        e <> RuntimeError duplicate_message
        /\ e <> ServiceError duplicate_message)
  /\ _previously_created_issues
       (self (@Init _ memory_service (world_with [issue_7] ∅ duplicated_target)).2) !! 7
     = Some {| title := "Crash on start"; comment_count := 1 |}.
Proof.
  split; [reflexivity|]. split; [|reflexivity].
  intros e He. vm_compute in He. injection He as <-. split; discriminate.
Qed.

(** ** Lines *)

Lemma join_cons2 (x y : string) (l : list string) :
  join nl (x :: y :: l) = x +:+ nl +:+ join nl (y :: l).
Proof. reflexivity. Qed.

(** Splitting a text into lines and joining the lines with newlines
    gives the text back. *)
Lemma join_split_nl (s : string) : join nl (split_nl s) = s.
Proof.
  induction s as [|c r IH]; [reflexivity|].
  simpl. destruct (Ascii.eqb_spec c "010") as [->|Hc].
  - destruct (split_nl r) as [|h t] eqn:Hr; [now apply split_nl_not_nil in Hr|].
    rewrite join_cons2, IH. reflexivity.
  - destruct (split_nl r) as [|h t] eqn:Hr; [now apply split_nl_not_nil in Hr|].
    destruct t as [|h' t].
    + simpl in *. now rewrite IH.
    + rewrite join_cons2, append_cons, <- join_cons2, IH. reflexivity.
Qed.

Lemma split_nl_newline (r : string) : split_nl (nl +:+ r) = "" :: split_nl r.
Proof. reflexivity. Qed.

Lemma split_nl_app (a b : string) :
  has_newline a = false ->
  split_nl (a +:+ b)
  = match split_nl b with
    | h :: t => (a +:+ h) :: t
    | [] => [a]
    end.
Proof.
  induction a as [|c a IH]; intros Ha.
  - rewrite append_nil.
    destruct (split_nl b) as [|h t] eqn:Hb; [now apply split_nl_not_nil in Hb|].
    reflexivity.
  - simpl in Ha. apply orb_false_iff in Ha as [Hc Ha].
    rewrite append_cons. simpl. rewrite Hc, (IH Ha).
    destruct (split_nl b) as [|h t] eqn:Hb; [now apply split_nl_not_nil in Hb|].
    reflexivity.
Qed.

Lemma split_nl_plain (a : string) : has_newline a = false -> split_nl a = [a].
Proof.
  intros Ha. rewrite <- (append_empty_r a) at 1.
  rewrite split_nl_app by exact Ha. simpl. now rewrite append_empty_r.
Qed.

(** Joining lines that hold no newline, at least one line, and splitting
    the text again gives the lines back. *)
Lemma split_join_nl (lines : list string) :
  lines <> [] ->
  Forall (fun line => has_newline line = false) lines ->
  split_nl (join nl lines) = lines.
Proof.
  intros Hne Hlines. induction Hlines as [|line rest Hline Hrest IH]; [congruence|].
  destruct rest as [|line2 rest].
  - simpl. now apply split_nl_plain.
  - rewrite join_cons2, split_nl_app by exact Hline.
    rewrite split_nl_newline, IH by discriminate.
    now rewrite append_empty_r.
Qed.

Lemma split_nl_no_newline (s : string) :
  Forall (fun line => has_newline line = false) (split_nl s).
Proof.
  induction s as [|c r IH]; simpl; [repeat constructor|].
  destruct (Ascii.eqb c "010") eqn:Hc.
  - constructor; [reflexivity | exact IH].
  - destruct (split_nl r) as [|h t]; [repeat constructor; simpl; now rewrite Hc|].
    inversion IH as [|? ? Hh Ht]; subst.
    constructor; [simpl; now rewrite Hc, Hh | exact Ht].
Qed.

(** ** Issue references *)

Lemma starts_with_digit_sub (s : string) :
  starts_with_digit (sub_issue_ref s) = starts_with_digit s.
Proof.
  destruct s as [|c r]; [reflexivity|].
  rewrite sub_issue_ref_cons.
  destruct (Ascii.eqb_spec c "#") as [->|Hc]; simpl; [|reflexivity].
  destruct (starts_with_digit r); reflexivity.
Qed.

Lemma has_issue_ref_nbsp (s : string) :
  has_issue_ref ("#&nbsp;" +:+ s) = has_issue_ref s.
Proof. reflexivity. Qed.

Lemma sub_issue_ref_no_ref (s : string) : has_issue_ref (sub_issue_ref s) = false.
Proof.
  induction s as [|c r IH]; [reflexivity|].
  rewrite sub_issue_ref_cons.
  destruct (Ascii.eqb c "#" && starts_with_digit r) eqn:Hmatch.
  - now rewrite has_issue_ref_nbsp.
  - simpl. now rewrite starts_with_digit_sub, Hmatch, IH.
Qed.

Lemma sub_issue_ref_fixed (s : string) :
  has_issue_ref s = false -> sub_issue_ref s = s.
Proof.
  induction s as [|c r IH]; intros Href; [reflexivity|].
  simpl in Href. apply orb_false_iff in Href as [Hmatch Href].
  now rewrite sub_issue_ref_cons, Hmatch, IH.
Qed.

(** X4.  The rewriting of issue references leaves no [#] directly in front of
    a digit; it changes nothing in a text that has none, and so doing it
    twice is doing it once. *)
Theorem sub_issue_ref_idempotent :
  (forall s : string, has_issue_ref (sub_issue_ref s) = false)
  /\ (forall s : string, has_issue_ref s = false -> sub_issue_ref s = s)
  /\ (forall s : string, sub_issue_ref (sub_issue_ref s) = sub_issue_ref s).
Proof.
  split; [exact sub_issue_ref_no_ref|]. split; [exact sub_issue_ref_fixed|].
  intros s. apply sub_issue_ref_fixed, sub_issue_ref_no_ref.
Qed.

Lemma sub_issue_ref_idempotent_witness :
  sub_issue_ref "a # 1 and #x" = "a # 1 and #x".
Proof.
  apply (proj1 (proj2 sub_issue_ref_idempotent)). reflexivity.
Defined.

Lemma has_newline_app (a b : string) :
  has_newline (a +:+ b) = has_newline a || has_newline b.
Proof.
  induction a as [|c a IH]; [reflexivity|].
  rewrite append_cons. simpl. now rewrite IH, orb_assoc.
Qed.

Lemma has_newline_sub (s : string) : has_newline (sub_issue_ref s) = has_newline s.
Proof.
  induction s as [|c r IH]; [reflexivity|].
  rewrite sub_issue_ref_cons.
  destruct (Ascii.eqb_spec c "#") as [->|Hc]; simpl.
  - destruct (starts_with_digit r); simpl; [|exact IH].
    rewrite has_newline_app. simpl. exact IH.
  - now rewrite IH.
Qed.

Lemma FixUpLines_no_newline (preformat : bool) (lines : list string) :
  Forall (fun line => has_newline line = false) lines ->
  Forall (fun line => has_newline line = false) (FixUpLines preformat lines).
Proof.
  intros Hlines. revert preformat.
  induction Hlines as [|line rest Hline _ IH]; intros preformat; simpl;
    constructor; [|apply IH].
  destruct (if starts_preformat line then true else preformat).
  - rewrite has_newline_app. simpl. exact Hline.
  - now rewrite has_newline_sub.
Qed.

Lemma FixUpLines_length (preformat : bool) (lines : list string) :
  length (FixUpLines preformat lines) = length lines.
Proof.
  revert preformat. induction lines as [|line rest IH]; intros preformat; simpl;
    [reflexivity | now rewrite IH].
Qed.

(** X1.  [FixUpComment] works line by line: the lines of its result are the
    rewritten lines of the comment, one for one, so it keeps the number
    of lines. *)
Theorem FixUpComment_lines (comment : string) :
  split_nl (FixUpComment comment) = FixUpLines false (split_nl comment)
  /\ length (split_nl (FixUpComment comment)) = length (split_nl comment).
Proof.
  assert (Hlines : split_nl (FixUpComment comment)
                   = FixUpLines false (split_nl comment)).
  { unfold FixUpComment. apply split_join_nl.
    - intros Hnil. apply (f_equal (@length string)) in Hnil.
      rewrite FixUpLines_length in Hnil.
      destruct (split_nl comment) eqn:Hsplit; [|discriminate Hnil].
      now apply split_nl_not_nil in Hsplit.
    - apply FixUpLines_no_newline, split_nl_no_newline. }
  split; [exact Hlines|]. now rewrite Hlines, FixUpLines_length.
Qed.

Lemma has_issue_ref_line (a b : string) :
  has_issue_ref (a +:+ nl +:+ b) = has_issue_ref a || has_issue_ref b.
Proof.
  induction a as [|c a IH]; [reflexivity|].
  rewrite append_cons. simpl. rewrite IH, orb_assoc. f_equal. f_equal. f_equal.
  destruct a; reflexivity.
Qed.

Lemma has_issue_ref_join (lines : list string) :
  Forall (fun line => has_issue_ref line = false) lines ->
  has_issue_ref (join nl lines) = false.
Proof.
  induction 1 as [|line rest Hline Hrest IH]; [reflexivity|].
  destruct rest as [|line2 rest]; [exact Hline|].
  now rewrite join_cons2, has_issue_ref_line, Hline, IH.
Qed.

(** X3.  In a comment none of whose lines starts the preformatted block, the
    result of [FixUpComment] has no [#] directly in front of a digit:
    nothing is left that the target would turn into a link to an
    issue. *)
Theorem FixUpComment_no_issue_ref (comment : string) :
  Forall (fun line => starts_preformat line = false) (split_nl comment) ->
  has_issue_ref (FixUpComment comment) = false.
Proof.
  intros Hplain. unfold FixUpComment.
  rewrite <- (app_nil_r (split_nl comment)).
  rewrite (FixUpLines_split (split_nl comment) [] Hplain) by now left.
  rewrite app_nil_r. apply has_issue_ref_join.
  clear Hplain. induction (split_nl comment) as [|line rest IH]; simpl;
    constructor; [apply sub_issue_ref_no_ref | exact IH].
Qed.

Lemma FixUpComment_no_issue_ref_witness :
  has_issue_ref (FixUpComment ("dup of #12" +:+ nl +:+ "#3#4 #")) = false.
Proof.
  apply FixUpComment_no_issue_ref. repeat constructor.
Defined.

Lemma has_issue_ref_lines (lines : list string) :
  has_issue_ref (join nl lines) = false ->
  Forall (fun line => has_issue_ref line = false) lines.
Proof.
  induction lines as [|line rest IH]; intros Href; [constructor|].
  destruct rest as [|line2 rest]; [repeat constructor; exact Href|].
  rewrite join_cons2, has_issue_ref_line in Href.
  apply orb_false_iff in Href as [Hline Hrest].
  constructor; [exact Hline | now apply IH].
Qed.

(** X2.  A comment without a line that starts the preformatted block and
    without a [#] directly in front of a digit comes out of
    [FixUpComment] as it went in. *)
Theorem FixUpComment_plain (comment : string) :
  Forall (fun line => starts_preformat line = false) (split_nl comment) ->
  has_issue_ref comment = false ->
  FixUpComment comment = comment.
Proof.
  intros Hplain Href. unfold FixUpComment.
  rewrite <- (app_nil_r (split_nl comment)).
  rewrite (FixUpLines_split (split_nl comment) [] Hplain) by now left.
  rewrite app_nil_r.
  rewrite <- (join_split_nl comment) in Href. apply has_issue_ref_lines in Href.
  rewrite <- (join_split_nl comment) at 2. f_equal.
  clear Hplain. induction Href as [|line rest Hline _ IH]; [reflexivity|].
  simpl. now rewrite (sub_issue_ref_fixed line Hline), IH.
Qed.

Lemma FixUpComment_plain_witness :
  FixUpComment ("Thanks, # 1 is fixed." +:+ nl +:+ "  # not a heading")
  = "Thanks, # 1 is fixed." +:+ nl +:+ "  # not a heading".
Proof.
  apply FixUpComment_plain; [repeat constructor | reflexivity].
Defined.

(** ** Content without attachments *)

Lemma append_eq_self (a b : string) : a +:+ b = a -> b = "".
Proof.
  intros Heq. apply (f_equal String.length) in Heq. rewrite append_length in Heq.
  destruct b; [reflexivity | simpl in Heq; lia].
Qed.

(** X5.  [GetContent] is the comment's text exactly when the comment has no
    attachment, be it that the key is absent or that the list is empty;
    with an attachment the text is only the beginning of the content. *)
Theorem GetContent_without_attachments (self : GoogleCodeComment.t) :
  (GoogleCodeComment.GetContent self = comment_content (GoogleCodeComment._comment self)
   <-> comment_attachments (GoogleCodeComment._comment self) = None
       \/ comment_attachments (GoogleCodeComment._comment self) = Some [])
  /\ exists rest,
       GoogleCodeComment.GetContent self
       = comment_content (GoogleCodeComment._comment self) +:+ rest.
Proof.
  unfold GoogleCodeComment.GetContent.
  destruct (comment_attachments (GoogleCodeComment._comment self))
    as [[|attachment attachments]|]; simpl.
  - split; [split; auto|]. exists "". now rewrite append_empty_r.
  - split; [|eexists; reflexivity]. split.
    + intros Heq. apply append_eq_self in Heq. discriminate Heq.
    + intros [Hnone|Hempty]; discriminate.
  - split; [split; auto|]. exists "". now rewrite append_empty_r.
Qed.

(** ** Description and comments of an issue *)

(** X6.  The first item of an issue's comments is its description and
    [GetComments] is the rest.  [GetDescription] is then the header
    [Original [issue {id}](https://code.google.com/p/{project}/issues/detail?id={id})
    created by {author} on {date}:], a blank line, and the normalised
    content of the description, where author and date are those of the
    description (the author through the user map, [None] when the
    description names none) and not those of the issue.  On an issue
    without items it raises [IndexError], while [GetComments] is empty;
    it raises in no other case. *)
Theorem description_and_comments (self : GoogleCodeIssue.t) :
  match issue_comments (GoogleCodeIssue._issue self) with
  | [] =>
      GoogleCodeIssue._GetDescription self = Raise IndexError
      /\ GoogleCodeIssue_GetDescription self = Raise IndexError
      /\ GoogleCodeIssue.GetComments self = []
  | description :: comments =>
      GoogleCodeIssue._GetDescription self = Ok description
      /\ GoogleCodeIssue.GetComments self = comments
      /\ GoogleCodeIssue_GetDescription self
         = Ok ("Original [issue "
                 +:+ str_of_int (issue_id (GoogleCodeIssue._issue self))
                 +:+ "](https://code.google.com/p/"
                 +:+ GoogleCodeIssue._project_name self
                 +:+ "/issues/detail?id="
                 +:+ str_of_int (issue_id (GoogleCodeIssue._issue self))
                 +:+ ") created by "
                 +:+ str_of_opt
                       (option_map (user_lookup (GoogleCodeIssue._user_map self))
                                   (comment_author description))
                 +:+ " on " +:+ comment_published description
                 +:+ ":" +:+ nl +:+ nl
                 +:+ FixUpComment
                       (GoogleCodeComment.GetContent
                          (GoogleCodeComment.new self description)))
  end
  /\ forall e : exn,
       GoogleCodeIssue_GetDescription self = Raise e ->
       e = IndexError /\ issue_comments (GoogleCodeIssue._issue self) = [].
Proof.
  unfold GoogleCodeIssue_GetDescription, GoogleCodeIssue._GetDescription,
    GoogleCodeIssue.GetComments.
  destruct (issue_comments (GoogleCodeIssue._issue self)) as [|description comments].
  - split; [repeat split; reflexivity|].
    intros e He. injection He as <-. now split.
  - assert (Hfirst : py_index (description :: comments) 0 = Ok description).
    { apply (py_index_middle [] comments description). }
    rewrite Hfirst. split; [|discriminate].
    split; [reflexivity|]. split; [reflexivity|].
    unfold GoogleCodeComment.GetAuthor, GoogleCodeComment.GetCreatedOn,
      GoogleCodeComment.GetIssue, GoogleCodeIssue.GetUserMap, GoogleCodeIssue.GetId.
    simpl. destruct (comment_author description); simpl;
      rewrite !append_assoc; reflexivity.
Qed.

(** ** Labels *)

Lemma filter_first {A : Type} (f : A -> bool) (before after : list A) (x : A) :
  Forall (fun y => f y = false) before -> f x = true ->
  List.filter f (before ++ x :: after) = x :: List.filter f after.
Proof.
  intros Hbefore Hx. induction Hbefore as [|y before Hy _ IH]; simpl.
  - now rewrite Hx.
  - now rewrite Hy.
Qed.

Lemma filter_none {A : Type} (f : A -> bool) (l : list A) :
  Forall (fun y => f y = false) l -> List.filter f l = [].
Proof.
  induction 1 as [|y l Hy _ IH]; simpl; [reflexivity | now rewrite Hy].
Qed.

(** X7.  [GetKind] is [Defect] when no label contains [Type-] (also when the
    issue has no labels at all); otherwise it is the first label that
    contains [Type-], anywhere in it, without its first five characters,
    so for a label [Type-k] it is [k]. *)
Theorem GetKind_first_label :
  (forall labels : option (list string),
     Forall (fun label => contains "Type-" label = false) (GetLabels labels) ->
     GetKind labels = "Defect")
  /\ (forall (before after : list string) (label : string),
        Forall (fun label => contains "Type-" label = false) before ->
        contains "Type-" label = true ->
        GetKind (Some (before ++ label :: after)%list) = slice_from 5 label)
  /\ (forall (before after : list string) (kind : string),
        Forall (fun label => contains "Type-" label = false) before ->
        GetKind (Some (before ++ ("Type-" +:+ kind) :: after)%list) = kind).
Proof.
  split; [|split].
  - intros labels Hnone. unfold GetKind.
    now rewrite (filter_none (fun t => contains "Type-" t)).
  - intros before after label Hbefore Hlabel. unfold GetKind. simpl GetLabels.
    now rewrite (filter_first (fun t => contains "Type-" t)
                   before after label Hbefore Hlabel).
  - intros before after kind Hbefore. unfold GetKind. simpl GetLabels.
    rewrite (filter_first (fun t => contains "Type-" t)
               before after ("Type-" +:+ kind) Hbefore); [reflexivity|].
    apply contains_iff. now exists "", kind.
Qed.

Lemma GetKind_first_label_witness :
  GetKind (Some ["Priority-High"; "Type-Enhancement"; "Type-Defect"]) = "Enhancement"
  /\ GetKind (Some ["Milestone-1"]) = "Defect"
  /\ GetKind (Some ["OpSys-Linux"; "Sub-Type-Task"]) = "ype-Task".
Proof.
  split; [|split].
  - apply (proj2 (proj2 GetKind_first_label) ["Priority-High"] ["Type-Defect"]
             "Enhancement").
    repeat constructor.
  - apply (proj1 GetKind_first_label). repeat constructor.
  - apply (proj1 (proj2 GetKind_first_label) ["OpSys-Linux"] [] "Sub-Type-Task");
      [repeat constructor | reflexivity].
Defined.

(** X8.  [GetPriority] is [Medium] when no label contains [Priority-];
    otherwise it is the first label that contains [Priority-] without
    its first nine characters, so for a label [Priority-p] it is [p]. *)
Theorem GetPriority_first_label :
  (forall labels : option (list string),
     Forall (fun label => contains "Priority-" label = false) (GetLabels labels) ->
     GetPriority labels = "Medium")
  /\ (forall (before after : list string) (label : string),
        Forall (fun label => contains "Priority-" label = false) before ->
        contains "Priority-" label = true ->
        GetPriority (Some (before ++ label :: after)%list) = slice_from 9 label)
  /\ (forall (before after : list string) (priority : string),
        Forall (fun label => contains "Priority-" label = false) before ->
        GetPriority (Some (before ++ ("Priority-" +:+ priority) :: after)%list)
        = priority).
Proof.
  split; [|split].
  - intros labels Hnone. unfold GetPriority.
    now rewrite (filter_none (fun p => contains "Priority-" p)).
  - intros before after label Hbefore Hlabel. unfold GetPriority. simpl GetLabels.
    now rewrite (filter_first (fun p => contains "Priority-" p)
                   before after label Hbefore Hlabel).
  - intros before after priority Hbefore. unfold GetPriority. simpl GetLabels.
    rewrite (filter_first (fun p => contains "Priority-" p)
               before after ("Priority-" +:+ priority) Hbefore); [reflexivity|].
    apply contains_iff. now exists "", priority.
Qed.

Lemma GetPriority_first_label_witness :
  GetPriority (Some ["Type-Defect"; "Priority-High"]) = "High"
  /\ GetPriority None = "Medium".
Proof.
  split.
  - apply (proj2 (proj2 GetPriority_first_label) ["Type-Defect"] [] "High").
    repeat constructor.
  - apply (proj1 GetPriority_first_label). constructor.
Defined.

(** ** Loading the issues of a project *)

(** X10.  [LoadIssueData] gives the issues of the first project of the file
    with the asked name, and raises [ProjectNotFoundError], naming the
    project, exactly when the file has no project of that name; an error
    in reading the file is the error of the load. *)
Theorem LoadIssueData_first_project
    (read_projects : string -> result (list Project))
    (issue_file_path project_name : string) :
  (forall (projects before after : list Project) (project : Project),
     read_projects issue_file_path = Ok projects ->
     projects = (before ++ project :: after)%list ->
     Forall (fun other => proj_name other <> project_name) before ->
     proj_name project = project_name ->
     LoadIssueData read_projects issue_file_path project_name
     = Ok (proj_issues project))
  /\ (forall projects : list Project,
        read_projects issue_file_path = Ok projects ->
        (Forall (fun other => proj_name other <> project_name) projects
         <-> LoadIssueData read_projects issue_file_path project_name
             = Raise (ProjectNotFoundError
                        ("Project " +:+ project_name +:+ " not found"))))
  /\ (forall e : exn,
        read_projects issue_file_path = Raise e ->
        LoadIssueData read_projects issue_file_path project_name = Raise e).
Proof.
  split; [|split].
  - intros projects before after project Hread -> Hbefore Hname.
    unfold LoadIssueData. rewrite Hread. clear Hread.
    induction Hbefore as [|other before Hother _ IH]; simpl.
    + now rewrite Hname, String.eqb_refl.
    + destruct (String.eqb_spec project_name (proj_name other)) as [Heq|_];
        [congruence | exact IH].
  - intros projects Hread. unfold LoadIssueData. rewrite Hread.
    clear Hread. induction projects as [|other projects IH]; simpl.
    + split; [reflexivity | constructor].
    + destruct (String.eqb_spec project_name (proj_name other)) as [Heq|Hne].
      * split; [|discriminate]. intros Hall.
        inversion Hall as [|? ? Hother _]; subst. congruence.
      * rewrite <- IH. split.
        -- intros Hall. now inversion Hall.
        -- intros Hall. constructor; [congruence | exact Hall].
  - intros e Hread. unfold LoadIssueData. now rewrite Hread.
Qed.

Lemma LoadIssueData_first_project_witness :
  LoadIssueData sample_projects "issues.json" "proj" = Ok [issue_7; issue_8]
  /\ LoadIssueData sample_projects "issues.json" "gone"
     = Raise (ProjectNotFoundError "Project gone not found")
  /\ LoadIssueData sample_projects "nowhere.json" "proj"
     = Raise (IOError "nowhere.json").
Proof.
  pose proof (LoadIssueData_first_project sample_projects "issues.json" "proj")
    as (Hfound & _ & _).
  pose proof (LoadIssueData_first_project sample_projects "issues.json" "gone")
    as (_ & Hmissing & _).
  pose proof (LoadIssueData_first_project sample_projects "nowhere.json" "proj")
    as (_ & _ & Herror).
  split; [|split].
  - apply (Hfound [ {| proj_name := "other"; proj_issues := [issue_3] |};
                    {| proj_name := "proj"; proj_issues := [issue_7; issue_8] |} ]
             [ {| proj_name := "other"; proj_issues := [issue_3] |} ] []
             {| proj_name := "proj"; proj_issues := [issue_7; issue_8] |});
      [reflexivity | reflexivity | | reflexivity].
    repeat constructor. discriminate.
  - apply (Hmissing [ {| proj_name := "other"; proj_issues := [issue_3] |};
                      {| proj_name := "proj"; proj_issues := [issue_7; issue_8] |} ]
             eq_refl).
    repeat constructor; discriminate.
  - apply Herror. reflexivity.
Defined.

(** ** Validated user directories *)

Section ValidatedUsers.

Context `{UserService}.

Lemma check_users_ok (usernames : list string) :
  check_users usernames = Ok tt ->
  forall username, username ∈ usernames -> IsUser username = Ok true.
Proof.
  induction usernames as [|u rest IH]; intros Hcheck username Hin.
  - inversion Hin.
  - simpl in Hcheck.
    destruct (IsUser u) as [[]|e] eqn:Hu; simpl in Hcheck; try discriminate.
    apply elem_of_cons in Hin as [->|Hin]; [exact Hu | now apply IH].
Qed.

(** X11.  A directory that [LoadUserData] returns maps only to usernames the
    user service knows, so every lookup gives the default username or a
    known user; the load succeeds, with the entries of the file, whenever
    the file is read and all its usernames are known; and an error in
    reading the file is the error of the load. *)
Theorem LoadUserData_validated
    (read_users : string -> result (gmap string string))
    (user_file_path : option string) (default : string) :
  (forall user_map : UserMap,
     LoadUserData read_users user_file_path default = Ok user_map ->
     (forall source username,
        user_entries user_map !! source = Some username -> IsUser username = Ok true)
     /\ (forall source,
           user_lookup user_map source = default
           \/ IsUser (user_lookup user_map source) = Ok true))
  /\ (forall (path : string) (entries : gmap string string),
        user_file_path = Some path -> path <> "" ->
        read_users path = Ok entries ->
        (forall source username,
           entries !! source = Some username -> IsUser username = Ok true) ->
        LoadUserData read_users user_file_path default
        = Ok {| default_username := default; user_entries := entries |})
  /\ (forall (path : string) (e : exn),
        user_file_path = Some path -> path <> "" ->
        read_users path = Raise e ->
        LoadUserData read_users user_file_path default = Raise e).
Proof.
  split; [|split].
  - intros user_map Hload.
    assert (Hentries : forall source username,
              user_entries user_map !! source = Some username ->
              IsUser username = Ok true).
    { unfold LoadUserData in Hload.
      destruct user_file_path as [[|c path]|];
        try (injection Hload as <-; intros source username Hin;
             simpl in Hin; rewrite lookup_empty in Hin; discriminate Hin).
      destruct (read_users (String c path)) as [entries|]; [|discriminate].
      destruct (check_users (map_to_list entries).*2) as [[]|] eqn:Hcheck;
        [|discriminate].
      injection Hload as <-. simpl. intros source username Hin.
      rewrite (right_id_L ∅ (∪)) in Hin.
      apply (check_users_ok _ Hcheck). apply list_elem_of_fmap.
      exists (source, username). split; [reflexivity|].
      now apply elem_of_map_to_list. }
    split; [exact Hentries|].
    intros source. unfold user_lookup.
    destruct (user_entries user_map !! source) as [username|] eqn:Hin.
    + right. now apply (Hentries source).
    + left. now apply LoadUserData_default in Hload.
  - intros path entries -> Hpath Hread Hvalid. unfold LoadUserData.
    destruct path as [|c path]; [congruence|]. rewrite Hread.
    rewrite check_users_valid.
    + simpl. do 2 f_equal. apply (right_id_L ∅ (∪)).
    + intros username Hin. apply list_elem_of_fmap in Hin as ([source u] & -> & Hin).
      apply elem_of_map_to_list in Hin. now apply (Hvalid source).
  - intros path e -> Hpath Hread. unfold LoadUserData.
    destruct path as [|c path]; [congruence|]. now rewrite Hread.
Qed.

(** X12.  With a user map from [LoadUserData], the author of a comment, the
    author of an issue and the owner of an issue are [None] when the
    record names none, and else the default username or a user the user
    service knows: an unmapped or unknown address never reaches the
    target. *)
Theorem authors_are_default_or_known
    (read_users : string -> result (gmap string string))
    (user_file_path : option string) (default : string) (user_map : UserMap) :
  LoadUserData read_users user_file_path default = Ok user_map ->
  let known := fun (name : option string) (mapped : option string) =>
    match name, mapped with
    | None, None => True
    | Some _, Some username => username = default \/ IsUser username = Ok true
    | _, _ => False
    end in
  (forall self : GoogleCodeComment.t,
     GoogleCodeIssue._user_map (GoogleCodeComment.GetIssue self) = user_map ->
     known (comment_author (GoogleCodeComment._comment self))
           (GoogleCodeComment.GetAuthor self))
  /\ (forall self : GoogleCodeIssue.t,
        GoogleCodeIssue._user_map self = user_map ->
        known (issue_author (GoogleCodeIssue._issue self))
              (GoogleCodeIssue.GetAuthor self))
  /\ (forall (self : GoogleCodeIssue.t) (owner : option string),
        GoogleCodeIssue._user_map self = user_map ->
        known owner (GetOwner self owner)).
Proof.
  intros Hload known.
  destruct (proj1 (LoadUserData_validated read_users user_file_path default)
              user_map Hload) as [_ Hlookup].
  split; [|split].
  - intros self Hmap. unfold GoogleCodeComment.GetAuthor, GoogleCodeIssue.GetUserMap.
    destruct (comment_author (GoogleCodeComment._comment self)); simpl; [|exact I].
    rewrite Hmap. apply Hlookup.
  - intros self Hmap. unfold GoogleCodeIssue.GetAuthor.
    destruct (issue_author (GoogleCodeIssue._issue self)); simpl; [|exact I].
    rewrite Hmap. apply Hlookup.
  - intros self owner Hmap. unfold GetOwner.
    destruct owner; simpl; [|exact I]. rewrite Hmap. apply Hlookup.
Qed.

End ValidatedUsers.

Lemma LoadUserData_validated_witness :
  @IsUser known_users
    (user_lookup {| default_username := "migrator";
                    user_entries := {[ "alice@example.com" := "alice" ]} |}
                 "alice@example.com") = Ok true
  /\ @LoadUserData known_users read_sample_users (Some "missing.json") "migrator"
     = Raise (IOError "missing.json").
Proof.
  pose proof (@LoadUserData_validated known_users read_sample_users
                (Some "users.json") "migrator") as (Hvalid & _ & _).
  pose proof (@LoadUserData_validated known_users read_sample_users
                (Some "missing.json") "migrator") as (_ & _ & Herror).
  split.
  - destruct (Hvalid {| default_username := "migrator";
                        user_entries := {[ "alice@example.com" := "alice" ]} |}
                     eq_refl) as [Hentries _].
    apply (Hentries "alice@example.com"). reflexivity.
  - apply (Herror "missing.json"); [reflexivity | discriminate | reflexivity].
Defined.

Lemma authors_are_default_or_known_witness :
  GoogleCodeComment.GetAuthor (comment_by (Some "alice@example.com")) = Some "alice"
  /\ (("alice" : string) = "migrator" \/ @IsUser known_users "alice" = Ok true)
  /\ GoogleCodeComment.GetAuthor (comment_by None) = None.
Proof.
  pose proof (@authors_are_default_or_known known_users read_sample_users
                (Some "users.json") "migrator" sample_user_map eq_refl)
    as (Hcomment & _ & _).
  split; [reflexivity|]. split; [|reflexivity].
  exact (Hcomment (comment_by (Some "alice@example.com")) eq_refl).
Defined.

(** ** Initialisation without duplicates, and with a failing service *)

Section InitMore.

Context {S : Type} `{IssueService S}.

Lemma record_issues_other (issues : list TargetIssue)
    (index : gmap Z PreviousIssue) (id : Z) :
  id ∉ target_id <$> issues ->
  record_issues issues index !! id = index !! id.
Proof.
  revert index. induction issues as [|issue issues IH]; intros index Hnotin.
  - reflexivity.
  - rewrite fmap_cons in Hnotin. apply not_elem_of_cons in Hnotin as [Hne Hnotin].
    simpl. change (fold_left _ issues ?m) with (record_issues issues m).
    rewrite IH by exact Hnotin. now apply lookup_insert_ne.
Qed.

Lemma record_issues_listed (issues : list TargetIssue)
    (index : gmap Z PreviousIssue) (issue : TargetIssue) :
  NoDup (target_id <$> issues) -> issue ∈ issues ->
  record_issues issues index !! target_id issue = Some (previous_of issue).
Proof.
  revert index. induction issues as [|first issues IH]; intros index Hnodup Hin.
  - inversion Hin.
  - rewrite fmap_cons in Hnodup. apply NoDup_cons in Hnodup as [Hnotin Hnodup].
    apply elem_of_cons in Hin as [->|Hin].
    + apply (record_issues_first issues first index Hnotin).
    + simpl. change (fold_left _ issues ?m) with (record_issues issues m).
      now apply IH.
Qed.

(** X13.  When the target lists no id twice and none that the index already
    has, [Init] ends normally after the two [GetIssues] calls, open
    first; the index then gives the title and the comment count of every
    listed issue under its id, and is as before for every other id. *)
Theorem Init_records_listed (w : World S)
    (open_issues closed_issues : list TargetIssue) (s1 s2 : S) :
  GetIssues "open" (service w) = (Ok open_issues, s1) ->
  GetIssues "closed" s1 = (Ok closed_issues, s2) ->
  NoDup (target_id <$> (open_issues ++ closed_issues)%list) ->
  (forall issue, issue ∈ (open_issues ++ closed_issues)%list ->
     _previously_created_issues (self w) !! target_id issue = None) ->
  (Init w).1 = Ok tt
  /\ service (Init w).2 = s2
  /\ calls (Init w).2 = (calls w ++ [CallGetIssues "open"; CallGetIssues "closed"])%list
  /\ (forall issue, issue ∈ (open_issues ++ closed_issues)%list ->
        _previously_created_issues (self (Init w).2) !! target_id issue
        = Some (previous_of issue))
  /\ (forall id, id ∉ target_id <$> (open_issues ++ closed_issues)%list ->
        _previously_created_issues (self (Init w).2) !! id
        = _previously_created_issues (self w) !! id).
Proof.
  intros Hopen Hclosed Hnodup Hnew.
  set (w2 := {| self := self w; service := s2;
                calls := ((calls w ++ [CallGetIssues "open"])
                            ++ [CallGetIssues "closed"])%list |}).
  pose proof (proj2 (record_loop (open_issues ++ closed_issues)%list w2)
                Hnodup Hnew) as Hloop.
  cbv zeta in Hloop.
  assert (Hrun : Init w = for_each (open_issues ++ closed_issues)%list
    (fun issue : TargetIssue =>
       e <- get_self ;;
       match _previously_created_issues e !! target_id issue with
       | None => ret tt
       | Some _ => die "GitHub returned multiple issues with the same ID?"
       end ;;
       update_self (fun e =>
         set_previously_created_issues
           (<[target_id issue :=
                {| title := target_title issue;
                   comment_count := target_comments issue |}]>
              (_previously_created_issues e)) e)) w2).
  { unfold Init, _GetAllPreviousIssues.
    unfold bind at 1. unfold invoke at 1. rewrite Hopen.
    unfold bind at 1. unfold invoke at 1. simpl service. rewrite Hclosed.
    reflexivity. }
  rewrite Hrun, Hloop. simpl.
  split; [reflexivity|]. split; [reflexivity|].
  split; [now rewrite <- app_assoc|]. split.
  - intros issue Hin. now apply record_issues_listed.
  - intros id Hnotin. now apply record_issues_other.
Qed.

(** X14.  An error of [GetIssues] is the error of [Init], and the index stays
    as it was: when the open issues cannot be listed the closed ones are
    not asked for. *)
Theorem Init_service_error (w : World S) (e : exn) :
  (forall s1 : S,
     GetIssues "open" (service w) = (Raise e, s1) ->
     Init w = (Raise e, after_call (CallGetIssues "open") s1 w))
  /\ (forall (open_issues : list TargetIssue) (s1 s2 : S),
        GetIssues "open" (service w) = (Ok open_issues, s1) ->
        GetIssues "closed" s1 = (Raise e, s2) ->
        Init w = (Raise e,
                  after_call (CallGetIssues "closed") s2
                    (after_call (CallGetIssues "open") s1 w))).
Proof.
  split.
  - intros s1 Hopen. unfold Init, _GetAllPreviousIssues.
    unfold bind at 1. unfold invoke at 1. now rewrite Hopen.
  - intros open_issues s1 s2 Hopen Hclosed. unfold Init, _GetAllPreviousIssues.
    unfold bind at 1. unfold invoke at 1. rewrite Hopen.
    unfold bind at 1. unfold invoke at 1. simpl service. now rewrite Hclosed.
Qed.

End InitMore.

Lemma Init_records_listed_witness :
  _previously_created_issues
    (self (@Init _ memory_service (world_with [issue_7] ∅ listed_target)).2) !! 7
  = Some {| title := "Crash on start"; comment_count := 1 |}
  /\ _previously_created_issues
       (self (@Init _ memory_service (world_with [issue_7] ∅ listed_target)).2) !! 5
     = None.
Proof.
  pose proof (@Init_records_listed _ memory_service
                (world_with [issue_7] ∅ listed_target)
                (memory_open listed_target) (memory_closed listed_target)
                listed_target listed_target eq_refl eq_refl) as Hinit.
  destruct Hinit as (_ & _ & _ & Hlisted & Hother).
  - simpl. repeat constructor; rewrite ?elem_of_cons, ?elem_of_nil; intuition lia.
  - intros issue _. apply lookup_empty.
  - split.
    + apply (Hlisted {| target_id := 7; target_title := "Crash on start";
                        target_comments := 1 |}).
      simpl. apply elem_of_cons. right. apply elem_of_cons. now left.
    + rewrite (Hother 5); [reflexivity|]. simpl.
      rewrite !elem_of_cons, elem_of_nil. intuition lia.
Defined.

Lemma Init_service_error_witness :
  @Init _ down_service (unit_world [issue_7] ∅)
  = (Raise (ServiceError "unreachable"),
     after_call (CallGetIssues "open") tt (unit_world [issue_7] ∅)).
Proof.
  apply (proj1 (@Init_service_error _ down_service (unit_world [issue_7] ∅)
                  (ServiceError "unreachable"))).
  reflexivity.
Defined.

(** ** The repair pass where nothing is to repair *)

Section RepairMore.

Context {S : Type} `{IssueService S}.

(** X15.  The id the repair pass takes for the last issue of the target is the
    highest key of the index, or [-1] when every key is below [-1]: it is
    at least [-1] and at least every key, and it is [-1] or a key. *)
Theorem last_issue_id_is_highest (previous : gmap Z PreviousIssue) :
  -1 <= last_issue_id previous
  /\ (forall id, is_Some (previous !! id) -> id <= last_issue_id previous)
  /\ (last_issue_id previous = -1
      \/ is_Some (previous !! last_issue_id previous)).
Proof.
  unfold last_issue_id.
  pose proof (fold_max_spec (map_to_list previous).*1 (-1)) as (Hinit & Hall & Hin).
  cbv zeta in Hinit, Hall, Hin.
  assert (Hkey : forall id, id ∈ (map_to_list previous).*1 <-> is_Some (previous !! id)).
  { intros id. rewrite list_elem_of_fmap. split.
    - intros ([id' v] & -> & Hv). apply elem_of_map_to_list in Hv. now exists v.
    - intros [v Hv]. exists (id, v). split; [reflexivity|].
      now apply elem_of_map_to_list. }
  split; [exact Hinit|]. split.
  - intros id Hid. now apply Hall, Hkey.
  - destruct Hin as [Heq|Hin]; [now left | right; now apply Hkey].
Qed.

(** X16.  On an empty index [Start] has nothing to repair: the repair pass
    makes no call and changes nothing, and [Start] is its main loop. *)
Theorem Start_repair_empty_index (w : World S) :
  _previously_created_issues (self w) = ∅ ->
  Start_repair w = (Ok tt, w) /\ Start w = Start_main w.
Proof.
  intros Hempty.
  assert (Hrepair : Start_repair w = (Ok tt, w)).
  { unfold Start_repair, bind, get_self. now rewrite Hempty, map_size_empty. }
  split; [exact Hrepair|]. now rewrite Start_unfold, Hrepair.
Qed.

(** X17.  When the archive has no issue with the id and the title of the
    highest issue of the index, [Start] raises a [RuntimeError] that
    names the id and the title, before any call on the service and
    before the main loop. *)
Theorem Start_repair_no_match (w : World S) (last_id : Z) (last : PreviousIssue) :
  _previously_created_issues (self w) !! last_id = Some last ->
  (forall id, is_Some (_previously_created_issues (self w) !! id) -> id <= last_id) ->
  -1 <= last_id ->
  (forall issue, issue ∈ _issue_json_data (self w) ->
     issue_id issue <> last_id \/ issue_title issue <> title last) ->
  Start_repair w = (Raise (RuntimeError (unable_to_find_message last_id last)), w)
  /\ Start w = (Raise (RuntimeError (unable_to_find_message last_id last)), w).
Proof.
  intros Hlast Hmax Hfloor Hnone.
  assert (Hrepair : Start_repair w
                    = (Raise (RuntimeError (unable_to_find_message last_id last)), w)).
  { unfold Start_repair, bind, get_self.
    destruct (Nat.eqb_spec (size (_previously_created_issues (self w))) 0) as [Hsize|_].
    { apply map_size_empty_iff in Hsize. rewrite Hsize, lookup_empty in Hlast.
      discriminate Hlast. }
    rewrite (last_issue_id_highest _ _ _ Hlast Hmax Hfloor), Hlast. unfold ret.
    destruct (find_issue (_issue_json_data (self w)) last_id last) as [issue|] eqn:Hfind;
      [|reflexivity].
    apply find_issue_matches in Hfind as (Hin & Hid & Htitle).
    destruct (Hnone issue Hin); contradiction. }
  split; [exact Hrepair|]. now rewrite Start_unfold, Hrepair.
Qed.

(** X18.  When the highest issue of the index records as many comments as the
    archive issue of its id and title has behind the description, or
    more, the repair pass makes no call and changes nothing. *)
Theorem Start_repair_nothing_missing
    (w : World S) (last_id : Z) (last : PreviousIssue) (issue : Issue) :
  _previously_created_issues (self w) !! last_id = Some last ->
  (forall id, is_Some (_previously_created_issues (self w) !! id) -> id <= last_id) ->
  -1 <= last_id ->
  find_issue (_issue_json_data (self w)) last_id last = Some issue ->
  Z.of_nat (length (GoogleCodeIssue.GetComments (googlecode_issue (self w) issue)))
    <= comment_count last ->
  Start_repair w = (Ok tt, w).
Proof.
  intros Hlast Hmax Hfloor Hfind Hcount.
  unfold Start_repair, bind, get_self.
  destruct (Nat.eqb_spec (size (_previously_created_issues (self w))) 0) as [Hsize|_].
  { apply map_size_empty_iff in Hsize. rewrite Hsize, lookup_empty in Hlast.
    discriminate Hlast. }
  rewrite (last_issue_id_highest _ _ _ Hlast Hmax Hfloor), Hlast. unfold ret.
  rewrite Hfind.
  destruct (negb (comment_count last =? _)); [|reflexivity].
  now rewrite range_empty.
Qed.

End RepairMore.

Lemma Start_repair_empty_index_witness :
  @Start_repair _ memory_service (fresh_world [issue_8] 8)
  = (Ok tt, fresh_world [issue_8] 8).
Proof.
  apply (proj1 (@Start_repair_empty_index _ memory_service (fresh_world [issue_8] 8)
                  eq_refl)).
Defined.

Lemma Start_repair_no_match_witness :
  @Start _ memory_service (world_with [issue_3; issue_8] interrupted_index (empty_target 8))
  = (Raise (RuntimeError (unable_to_find_message 7
                            {| title := "Crash on start"; comment_count := 1 |})),
     world_with [issue_3; issue_8] interrupted_index (empty_target 8)).
Proof.
  apply (@Start_repair_no_match _ memory_service
           (world_with [issue_3; issue_8] interrupted_index (empty_target 8))
           7 {| title := "Crash on start"; comment_count := 1 |}).
  - reflexivity.
  - intros id [v Hv]. unfold world_with, exporter_with, interrupted_index in Hv.
    simpl in Hv. destruct (decide (id = 3)) as [->|H3]; [lia|].
    destruct (decide (id = 7)) as [->|H7]; [lia|].
    rewrite lookup_insert_ne, lookup_singleton_ne in Hv by congruence.
    discriminate Hv.
  - lia.
  - intros issue Hin. simpl in Hin.
    apply elem_of_cons in Hin as [->|Hin]; [left; simpl; lia|].
    apply elem_of_cons in Hin as [->|Hin]; [left; simpl; lia|].
    inversion Hin.
Defined.

Lemma Start_repair_nothing_missing_witness :
  @Start_repair _ memory_service
     (world_with [issue_3; issue_7]
        {[ 7 := {| title := "Crash on start"; comment_count := 5 |} ]}
        (empty_target 8))
  = (Ok tt,
     world_with [issue_3; issue_7]
        {[ 7 := {| title := "Crash on start"; comment_count := 5 |} ]}
        (empty_target 8)).
Proof.
  apply (@Start_repair_nothing_missing _ memory_service _ 7
           {| title := "Crash on start"; comment_count := 5 |} issue_7).
  - reflexivity.
  - intros id [v Hv]. unfold world_with, exporter_with in Hv. simpl in Hv.
    destruct (decide (id = 7)) as [->|H7]; [lia|].
    rewrite lookup_singleton_ne in Hv by congruence. discriminate Hv.
  - lia.
  - reflexivity.
  - simpl. lia.
Defined.

(** ** The main loop: declined issues, service errors, counters *)

Section MainMore.

Context {S : Type} `{IssueService S}.

Lemma Start_issue_create (w : World S) (issue : Issue) :
  _previously_created_issues (self w) !! issue_id issue = None ->
  Start_issue issue w
  = match CreateIssue (googlecode_issue (self w) issue) (service w) with
    | (Raise e, s1) => (Raise e, after_create issue s1 w)
    | (Ok n, s1) =>
        if n <? 0 then (Ok tt, after_create issue s1 w)
        else if negb (n =? issue_id issue)
        then (Raise (RuntimeError (mismatch_message issue n)), after_create issue s1 w)
        else (_CreateComments
                (GoogleCodeIssue.GetComments (googlecode_issue (self w) issue))
                n (googlecode_issue (self w) issue) ;;
              if negb (GoogleCodeIssue.IsOpen (googlecode_issue (self w) issue))
              then invoke (CallCloseIssue n) (CloseIssue n)
              else ret tt) (after_create issue s1 w)
    end.
Proof.
  intros Hnew. unfold Start_issue. run.
  unfold GoogleCodeIssue.GetId. simpl. rewrite Hnew.
  unfold _CreateIssue, invoke. simpl.
  destruct (CreateIssue (googlecode_issue (self w) issue) (service w)) as [[n|e] s1];
    [|reflexivity].
  destruct (n <? 0); [reflexivity|].
  destruct (n =? issue_id issue); reflexivity.
Qed.

(** X19.  An issue for which [CreateIssue] answers a negative number is left
    at that: no comment is replayed and the issue is not closed, whatever
    its state, and the loop goes on with the next issue. *)
Theorem Start_issue_declined (w : World S) (issue : Issue) (n : Z) (s1 : S) :
  _previously_created_issues (self w) !! issue_id issue = None ->
  CreateIssue (googlecode_issue (self w) issue) (service w) = (Ok n, s1) ->
  n < 0 ->
  Start_issue issue w = (Ok tt, after_create issue s1 w)
  /\ forall rest : list Issue,
       for_each (issue :: rest) Start_issue w
       = for_each rest Start_issue (after_create issue s1 w).
Proof.
  intros Hnew Hcreate Hneg.
  assert (Hstep : Start_issue issue w = (Ok tt, after_create issue s1 w)).
  { rewrite (Start_issue_create w issue Hnew), Hcreate.
    destruct (Z.ltb_spec n 0); [reflexivity | lia]. }
  split; [exact Hstep|]. intros rest.
  change (for_each (issue :: rest) Start_issue w)
    with (bind (Start_issue issue) (fun _ => for_each rest Start_issue) w).
  unfold bind. now rewrite Hstep.
Qed.

(** X20.  An error of [CreateIssue] ends the run with that error: the loop,
    and with it [Start], stops at the issue, and nothing is called
    behind the failed [CreateIssue]. *)
Theorem Start_issue_create_error (w : World S) (issue : Issue) (e : exn) (s1 : S) :
  _previously_created_issues (self w) !! issue_id issue = None ->
  CreateIssue (googlecode_issue (self w) issue) (service w) = (Raise e, s1) ->
  Start_issue issue w = (Raise e, after_create issue s1 w)
  /\ (forall (done rest : list Issue) (w0 : World S),
        for_each done Start_issue w0 = (Ok tt, w) ->
        for_each (done ++ issue :: rest) Start_issue w0
        = (Raise e, after_create issue s1 w))
  /\ (forall (done rest : list Issue) (w0 w1 : World S),
        _issue_json_data (self w1) = (done ++ issue :: rest)%list ->
        Start_repair w0 = (Ok tt, w1) ->
        for_each done Start_issue (begin_main w1) = (Ok tt, w) ->
        Start w0 = (Raise e, after_create issue s1 w)).
Proof.
  intros Hnew Hcreate.
  assert (Hstep : Start_issue issue w = (Raise e, after_create issue s1 w)).
  { now rewrite (Start_issue_create w issue Hnew), Hcreate. }
  assert (Hloop : forall (done rest : list Issue) (w0 : World S),
             for_each done Start_issue w0 = (Ok tt, w) ->
             for_each (done ++ issue :: rest) Start_issue w0
             = (Raise e, after_create issue s1 w)).
  { intros done rest w0 Hdone. rewrite for_each_app, Hdone.
    change (for_each (issue :: rest) Start_issue w)
      with (bind (Start_issue issue) (fun _ => for_each rest Start_issue) w).
    unfold bind. now rewrite Hstep. }
  split; [exact Hstep|]. split; [exact Hloop|].
  intros done rest w0 w1 Hdata Hrepair Hdone.
  rewrite Start_unfold, Hrepair, Start_main_unfold, Hdata. now apply Hloop.
Qed.

End MainMore.

Lemma Start_issue_declined_witness :
  @Start_issue _ declining_service issue_9 (unit_world [issue_9] ∅)
  = (Ok tt, after_create issue_9 tt (unit_world [issue_9] ∅)).
Proof.
  apply (@Start_issue_declined _ declining_service (unit_world [issue_9] ∅)
           issue_9 (-1) tt); [reflexivity | reflexivity | lia].
Defined.

Lemma Start_issue_create_error_witness :
  @Start _ down_service (unit_world [issue_8; issue_9] ∅)
  = (Raise (ServiceError "unreachable"),
     after_create issue_8 tt (begin_main (unit_world [issue_8; issue_9] ∅))).
Proof.
  pose proof (@Start_issue_create_error _ down_service
                (begin_main (unit_world [issue_8; issue_9] ∅)) issue_8
                (ServiceError "unreachable") tt eq_refl eq_refl)
    as (_ & _ & Hstart).
  apply (Hstart [] [issue_9] _ (unit_world [issue_8; issue_9] ∅));
    reflexivity.
Defined.

(** ** Progress counters and what the run leaves alone *)

Section Progress.

Context {S : Type} `{IssueService S}.

Lemma same_but_comment_progress_fields (e e' : t) :
  same_but_comment_progress e e' ->
  same_config e e'
  /\ _issue_number e' = _issue_number e
  /\ _issue_total e' = _issue_total e
  /\ _skipped_issues e' = _skipped_issues e.
Proof. intros (cn & ct & ->). repeat split. Qed.

(** The counters of [_CreateComments], from any start of the loop: the
    comment counter moves by the number of calls made. *)
Lemma CreateComments_loop_count (comments : list Comment) (issue_number : Z)
    (gi : GoogleCodeIssue.t) (w : World S) :
  let body := fun comment =>
    update_self (fun e => set_comment_number (_comment_number e + 1) e) ;;
    e <- get_self ;;
    invoke (CallCreateComment issue_number (GoogleCodeIssue.GetId gi)
              (GoogleCodeComment.new gi comment) (_project_name e))
           (CreateComment issue_number (GoogleCodeIssue.GetId gi)
              (GoogleCodeComment.new gi comment) (_project_name e)) in
  let rw := for_each comments body w in
  exists k : nat,
    (k <= length comments)%nat
    /\ _comment_number (self rw.2) = _comment_number (self w) + Z.of_nat k
    /\ _comment_total (self rw.2) = _comment_total (self w)
    /\ calls rw.2
       = (calls w ++ List.map (comment_call gi issue_number (_project_name (self w)))
                              (take k comments))%list
    /\ (rw.1 = Ok tt -> k = length comments).
Proof.
  intros body. cbv zeta.
  assert (Hstep : forall comment comments w,
    for_each (comment :: comments) body w
    = match CreateComment issue_number (GoogleCodeIssue.GetId gi)
              (GoogleCodeComment.new gi comment) (_project_name (self w))
              (service w) with
      | (Ok _, s1) =>
          for_each comments body
            {| self := set_comment_number (_comment_number (self w) + 1) (self w);
               service := s1;
               calls := (calls w ++ [comment_call gi issue_number
                                       (_project_name (self w)) comment])%list |}
      | (Raise e, s1) =>
          (Raise e,
           {| self := set_comment_number (_comment_number (self w) + 1) (self w);
              service := s1;
              calls := (calls w ++ [comment_call gi issue_number
                                      (_project_name (self w)) comment])%list |})
      end).
  { intros comment comments' w'.
    change (for_each (comment :: comments') body w')
      with (bind (body comment) (fun _ => for_each comments' body) w').
    unfold bind at 1. unfold body at 1. unfold bind, update_self, get_self, invoke.
    simpl.
    destruct (CreateComment issue_number (GoogleCodeIssue.GetId gi)
                (GoogleCodeComment.new gi comment) (_project_name (self w'))
                (service w')) as [[[]|e] s1]; reflexivity. }
  revert w. induction comments as [|comment comments IH]; intros w.
  - exists O. simpl. rewrite app_nil_r, Z.add_0_r.
    split; [lia|]. split; [reflexivity|]. split; [reflexivity|].
    split; reflexivity.
  - rewrite Hstep.
    destruct (CreateComment issue_number (GoogleCodeIssue.GetId gi)
                (GoogleCodeComment.new gi comment) (_project_name (self w))
                (service w)) as [[[]|e] s1].
    + match goal with
      | |- context [for_each comments body ?w1] => specialize (IH w1)
      end.
      simpl in IH. destruct IH as (k & Hk & Hnumber & Htotal & Hcalls & Hok).
      exists (Datatypes.S k). simpl length.
      split; [lia|]. split; [rewrite Hnumber; lia|]. split; [exact Htotal|].
      split; [rewrite Hcalls, <- app_assoc; reflexivity|].
      intros Hr. now rewrite (Hok Hr).
    + exists 1%nat. simpl. split; [lia|]. split; [reflexivity|].
      split; [reflexivity|]. split; [now destruct comments | discriminate].
Qed.

(** X21.  After [_CreateComments], however it ends, [_comment_total] is the
    number of comments and [_comment_number] is the number of
    [CreateComment] calls made, the failed one included: it never
    exceeds the total and reaches it when the replay ends normally. *)
Theorem CreateComments_progress (comments : list Comment) (issue_number : Z)
    (gi : GoogleCodeIssue.t) (w : World S) :
  let rw := _CreateComments comments issue_number gi w in
  _comment_total (self rw.2) = Z.of_nat (length comments)
  /\ 0 <= _comment_number (self rw.2) <= _comment_total (self rw.2)
  /\ calls rw.2
     = (calls w ++ List.map (comment_call gi issue_number (_project_name (self w)))
                            (take (Z.to_nat (_comment_number (self rw.2))) comments))%list
  /\ (rw.1 = Ok tt -> _comment_number (self rw.2) = _comment_total (self rw.2)).
Proof.
  cbv zeta.
  pose proof (CreateComments_loop_count comments issue_number gi
                {| self := set_comment_number 0
                             (set_comment_total (Z.of_nat (length comments)) (self w));
                   service := service w; calls := calls w |}) as Hloop.
  cbv zeta in Hloop. simpl in Hloop.
  destruct Hloop as (k & Hk & Hnumber & Htotal & Hcalls & Hok).
  change (_CreateComments comments issue_number gi w)
    with (for_each comments
            (fun comment =>
               update_self (fun e => set_comment_number (_comment_number e + 1) e) ;;
               e <- get_self ;;
               invoke (CallCreateComment issue_number (GoogleCodeIssue.GetId gi)
                         (GoogleCodeComment.new gi comment) (_project_name e))
                      (CreateComment issue_number (GoogleCodeIssue.GetId gi)
                         (GoogleCodeComment.new gi comment) (_project_name e)))
            {| self := set_comment_number 0
                         (set_comment_total (Z.of_nat (length comments)) (self w));
               service := service w; calls := calls w |}).
  rewrite Hnumber, Htotal. simpl.
  split; [reflexivity|]. split; [lia|]. split.
  - rewrite Hcalls. replace (Z.to_nat (0 + Z.of_nat k)) with k by lia. reflexivity.
  - intros Hr. rewrite (Hok Hr). lia.
Qed.

Lemma same_config_refl (e : t) : same_config e e.
Proof. repeat split. Qed.

Lemma same_config_trans (e1 e2 e3 : t) :
  same_config e1 e2 -> same_config e2 e3 -> same_config e1 e3.
Proof.
  intros (H1 & H2 & H3 & H4) (H1' & H2' & H3' & H4').
  repeat split; congruence.
Qed.

(** One round of the main loop, however it ends: archive, project name,
    user map and index stay, the issue counter moves by one, and
    [_skipped_issues] moves by one exactly for an issue in the index. *)
Lemma Start_issue_frame (w : World S) (issue : Issue) :
  let rw := Start_issue issue w in
  same_config (self w) (self rw.2)
  /\ _issue_number (self rw.2) = _issue_number (self w) + 1
  /\ _issue_total (self rw.2) = _issue_total (self w)
  /\ _skipped_issues (self rw.2)
     = _skipped_issues (self w)
       + (if previously_created (self w) issue then 1 else 0).
Proof.
  cbv zeta. unfold previously_created.
  destruct (_previously_created_issues (self w) !! issue_id issue)
    as [previous|] eqn:Hindex.
  { rewrite (Start_issue_skip w issue previous Hindex). simpl.
    repeat split; reflexivity. }
  rewrite (Start_issue_create w issue Hindex).
  destruct (CreateIssue (googlecode_issue (self w) issue) (service w)) as [[n|e] s1].
  2:{ simpl. rewrite Z.add_0_r. repeat split; reflexivity. }
  destruct (n <? 0); [simpl; rewrite Z.add_0_r; repeat split; reflexivity|].
  destruct (negb (n =? issue_id issue));
    [simpl; rewrite Z.add_0_r; repeat split; reflexivity|].
  unfold bind.
  match goal with
  | |- context [_CreateComments ?cs ?m ?g ?w1] =>
      pose proof (CreateComments_calls cs m g w1) as Hreplay;
      destruct (_CreateComments cs m g w1) as [[[]|e] w2]
  end; cbv zeta in Hreplay; simpl in Hreplay; destruct Hreplay as (Hsame & _);
    apply same_but_comment_progress_fields in Hsame
      as ((H1 & H2 & H3 & H4) & Hnumber & Htotal & Hskipped); simpl in *.
  - assert (Hself : forall rw : result unit * World S,
              self rw.2 = self w2 ->
              same_config (self w) (self rw.2)
              /\ _issue_number (self rw.2) = _issue_number (self w) + 1
              /\ _issue_total (self rw.2) = _issue_total (self w)
              /\ _skipped_issues (self rw.2) = _skipped_issues (self w) + 0).
    { intros rw ->. rewrite Z.add_0_r. repeat split; assumption. }
    destruct (negb (GoogleCodeIssue.IsOpen (googlecode_issue (self w) issue)));
      apply Hself; [|reflexivity].
    unfold invoke. now destruct (CloseIssue n (service w2)).
  - rewrite Z.add_0_r. repeat split; assumption.
Qed.

(** The same over a stretch of the archive. *)
Lemma for_each_Start_issue_frame (issues : list Issue) (w : World S) :
  let rw := for_each issues Start_issue w in
  same_config (self w) (self rw.2)
  /\ _issue_total (self rw.2) = _issue_total (self w)
  /\ (rw.1 = Ok tt ->
      _issue_number (self rw.2) = _issue_number (self w) + Z.of_nat (length issues)
      /\ _skipped_issues (self rw.2)
         = _skipped_issues (self w)
           + Z.of_nat (length (List.filter (previously_created (self w)) issues))).
Proof.
  cbv zeta. revert w. induction issues as [|issue issues IH]; intros w.
  - simpl. rewrite !Z.add_0_r. repeat split; reflexivity.
  - change (for_each (issue :: issues) Start_issue w)
      with (bind (Start_issue issue) (fun _ => for_each issues Start_issue) w).
    unfold bind.
    pose proof (Start_issue_frame w issue) as (Hconfig & Hnumber & Htotal & Hskipped).
    cbv zeta in Hconfig, Hnumber, Htotal, Hskipped.
    destruct (Start_issue issue w) as [[[]|e] w1]; simpl in *.
    + destruct (IH w1) as (Hconfig' & Htotal' & Hok).
      split; [now apply same_config_trans with (self w1)|].
      split; [congruence|].
      intros Hr. destruct (Hok Hr) as [Hn Hs].
      assert (Hsame : List.filter (previously_created (self w1)) issues
                      = List.filter (previously_created (self w)) issues).
      { apply List.filter_ext. intros i. unfold previously_created.
        destruct Hconfig as (_ & _ & _ & ->). reflexivity. }
      rewrite Hn, Hs, Hnumber, Hskipped, Hsame.
      destruct (previously_created (self w) issue); simpl length; split; lia.
    + split; [exact Hconfig|]. split; [exact Htotal | discriminate].
Qed.

(** X22.  [Start] never changes the archive, the project name, the user map or
    the index, however it ends; when it ends normally, [_issue_number]
    and [_issue_total] are the number of issues of the archive and
    [_skipped_issues] is the number of those whose id is in the index. *)
Theorem Start_keeps_config_and_counts (w : World S) :
  same_config (self w) (self (Start w).2)
  /\ ((Start w).1 = Ok tt ->
      _issue_total (self (Start w).2) = Z.of_nat (length (_issue_json_data (self w)))
      /\ _issue_number (self (Start w).2) = _issue_total (self (Start w).2)
      /\ _skipped_issues (self (Start w).2)
         = Z.of_nat (length (List.filter (previously_created (self w))
                                         (_issue_json_data (self w))))).
Proof.
  rewrite Start_unfold.
  destruct (Start_repair_calls w) as (Hself & _).
  destruct (Start_repair w) as [[[]|e] w1]; simpl in Hself.
  - rewrite Start_main_unfold, Hself.
    pose proof (for_each_Start_issue_frame (_issue_json_data (self w)) (begin_main w1))
      as (Hconfig & Htotal & Hok).
    cbv zeta in Hconfig, Htotal, Hok. simpl in Hconfig, Htotal, Hok.
    rewrite Hself in Hconfig, Htotal, Hok.
    split.
    + destruct Hconfig as (H1 & H2 & H3 & H4). repeat split; assumption.
    + intros Hr. destruct (Hok Hr) as [Hn Hs].
      split; [exact Htotal|]. rewrite Htotal, Hn, Hs. split; [lia|].
      rewrite Z.add_0_l. reflexivity.
  - simpl. rewrite Hself. split; [apply same_config_refl | discriminate].
Qed.

End Progress.

(** ** The calls of a run against a service that raises nothing *)

Section Trace.

Context {S : Type} `{IssueService S}.

Hypothesis create_answers_source_id :
  forall gi s, (CreateIssue gi s).1 = Ok (GoogleCodeIssue.GetId gi).
Hypothesis comment_raises_nothing :
  forall n sid c p s, (CreateComment n sid c p s).1 = Ok tt.
Hypothesis close_raises_nothing :
  forall n s, (CloseIssue n s).1 = Ok tt.

Lemma new_issue_calls_config (e e' : t) (issue : Issue) :
  same_config e e' -> new_issue_calls e' issue = new_issue_calls e issue.
Proof.
  intros (_ & Hproject & Hmap & Hindex).
  unfold new_issue_calls, issue_calls, googlecode_issue.
  now rewrite Hproject, Hmap, Hindex.
Qed.

Lemma Start_issue_cooperative (w : World S) (issue : Issue) :
  0 <= issue_id issue ->
  (Start_issue issue w).1 = Ok tt
  /\ calls (Start_issue issue w).2 = (calls w ++ new_issue_calls (self w) issue)%list.
Proof.
  intros Hpos. unfold new_issue_calls.
  destruct (_previously_created_issues (self w) !! issue_id issue)
    as [previous|] eqn:Hindex.
  { rewrite (Start_issue_skip w issue previous Hindex). simpl.
    now rewrite app_nil_r. }
  rewrite (Start_issue_create w issue Hindex).
  pose proof (create_answers_source_id (googlecode_issue (self w) issue) (service w))
    as Hcreate.
  destruct (CreateIssue (googlecode_issue (self w) issue) (service w)) as [r s1].
  simpl in Hcreate. subst r. unfold GoogleCodeIssue.GetId. simpl.
  destruct (Z.ltb_spec (issue_id issue) 0) as [Hneg|_]; [lia|].
  rewrite Z.eqb_refl. simpl negb. cbv iota.
  unfold bind.
  match goal with
  | |- context [_CreateComments ?cs ?m ?g ?w1] =>
      pose proof (CreateComments_calls cs m g w1) as Hreplay;
      destruct (_CreateComments cs m g w1) as [[[]|e] w2]
  end; cbv zeta in Hreplay; simpl in Hreplay;
    destruct Hreplay as (_ & _ & Hok & Hall).
  2:{ specialize (Hall comment_raises_nothing). discriminate Hall. }
  specialize (Hok eq_refl). unfold issue_calls.
  destruct (GoogleCodeIssue.IsOpen (googlecode_issue (self w) issue)); simpl.
  - unfold ret. simpl. rewrite Hok, <- app_assoc, app_nil_r. now split.
  - unfold invoke.
    pose proof (close_raises_nothing (issue_id issue) (service w2)) as Hclose.
    destruct (CloseIssue (issue_id issue) (service w2)) as [r s3].
    simpl in Hclose. subst r. simpl. rewrite Hok, <- !app_assoc. now split.
Qed.

Lemma for_each_cooperative (issues : list Issue) (w : World S) :
  (forall issue, issue ∈ issues -> 0 <= issue_id issue) ->
  (for_each issues Start_issue w).1 = Ok tt
  /\ calls (for_each issues Start_issue w).2
     = (calls w ++ flat_map (new_issue_calls (self w)) issues)%list.
Proof.
  revert w. induction issues as [|issue issues IH]; intros w Hpos.
  - simpl. now rewrite app_nil_r.
  - change (for_each (issue :: issues) Start_issue w)
      with (bind (Start_issue issue) (fun _ => for_each issues Start_issue) w).
    unfold bind.
    destruct (Start_issue_cooperative w issue) as [Hr Hcalls];
      [apply Hpos, elem_of_cons; now left|].
    pose proof (Start_issue_frame w issue) as (Hconfig & _).
    cbv zeta in Hconfig.
    destruct (Start_issue issue w) as [[[]|e] w1]; simpl in *; [|discriminate Hr].
    destruct (IH w1) as [Hr' Hcalls'].
    { intros issue' Hin. apply Hpos, elem_of_cons. now right. }
    split; [exact Hr'|]. rewrite Hcalls', Hcalls, <- app_assoc. f_equal. f_equal.
    apply flat_map_ext. intros i. now apply new_issue_calls_config.
Qed.

(** X23.  Against a service that numbers every issue with its source id and
    raises nothing, and over an archive without negative ids, the main
    loop ends normally and calls, in archive order and for the issues
    that are not in the index only, the creation of the issue, each of
    its comments in order, and its closing unless it is open; from an
    empty index that is all that [Start] calls. *)
Theorem Start_creates_in_archive_order (w : World S) :
  (forall issue, issue ∈ _issue_json_data (self w) -> 0 <= issue_id issue) ->
  ((Start_main w).1 = Ok tt
   /\ calls (Start_main w).2
      = (calls w ++ flat_map (new_issue_calls (self w)) (_issue_json_data (self w)))%list)
  /\ (_previously_created_issues (self w) = ∅ ->
      (Start w).1 = Ok tt
      /\ calls (Start w).2
         = (calls w ++ flat_map (issue_calls (self w)) (_issue_json_data (self w)))%list).
Proof.
  intros Hpos.
  assert (Hmain : (Start_main w).1 = Ok tt
                  /\ calls (Start_main w).2
                     = (calls w ++ flat_map (new_issue_calls (self w))
                                            (_issue_json_data (self w)))%list).
  { rewrite Start_main_unfold.
    destruct (for_each_cooperative (_issue_json_data (self w)) (begin_main w) Hpos)
      as [Hr Hcalls].
    split; [exact Hr|]. rewrite Hcalls. reflexivity. }
  split; [exact Hmain|]. intros Hempty.
  rewrite Start_unfold.
  assert (Hrepair : Start_repair w = (Ok tt, w)).
  { unfold Start_repair, bind, get_self. now rewrite Hempty, map_size_empty. }
  rewrite Hrepair. destruct Hmain as [Hr Hcalls]. split; [exact Hr|].
  rewrite Hcalls. f_equal. apply flat_map_ext. intros issue.
  unfold new_issue_calls. now rewrite Hempty, lookup_empty.
Qed.

End Trace.

Lemma Start_creates_in_archive_order_witness :
  calls (@Start _ echo_service (unit_world [issue_8; issue_9] ∅)).2
  = [ CallCreateIssue (sample_googlecode_issue issue_8);
      comment_call (sample_googlecode_issue issue_8) 8 "proj"
        (sample_comment 1 "Still." None);
      CallCreateIssue (sample_googlecode_issue issue_9);
      comment_call (sample_googlecode_issue issue_9) 9 "proj"
        (sample_comment 1 "Done." None);
      CallCloseIssue 9 ].
Proof.
  pose proof (@Start_creates_in_archive_order _ echo_service
                ltac:(reflexivity) ltac:(reflexivity) ltac:(reflexivity)
                (unit_world [issue_8; issue_9] ∅)) as Hstart.
  destruct Hstart as [_ Hempty].
  - intros issue Hin. simpl in Hin.
    apply elem_of_cons in Hin as [->|Hin]; [simpl; lia|].
    apply elem_of_cons in Hin as [->|Hin]; [simpl; lia|].
    inversion Hin.
  - destruct (Hempty eq_refl) as [_ Hcalls]. rewrite Hcalls. reflexivity.
Defined.

(** ** A resumed run *)

Section Resume.

Context {S : Type} `{IssueService S}.

Hypothesis create_answers_source_id :
  forall gi s, (CreateIssue gi s).1 = Ok (GoogleCodeIssue.GetId gi).
Hypothesis comment_raises_nothing :
  forall n sid c p s, (CreateComment n sid c p s).1 = Ok tt.
Hypothesis close_raises_nothing :
  forall n s, (CloseIssue n s).1 = Ok tt.

(** The repair pass as a loop over the comments that are missing. *)
Lemma Start_repair_run (w : World S) (last_id : Z) (last : PreviousIssue)
    (issue : Issue) :
  _previously_created_issues (self w) !! last_id = Some last ->
  (forall id, is_Some (_previously_created_issues (self w) !! id) -> id <= last_id) ->
  -1 <= last_id ->
  find_issue (_issue_json_data (self w)) last_id last = Some issue ->
  0 <= comment_count last ->
  Start_repair w
  = for_each (drop (Z.to_nat (comment_count last))
                   (GoogleCodeIssue.GetComments (googlecode_issue (self w) issue)))
      (fun comment =>
         invoke (comment_call (googlecode_issue (self w) issue) last_id
                   (_project_name (self w)) comment)
                (CreateComment last_id last_id
                   (GoogleCodeComment.new (googlecode_issue (self w) issue) comment)
                   (_project_name (self w)))) w.
Proof.
  intros Hlast Hmax Hfloor Hfind Hcount.
  destruct (find_issue_matches _ _ _ _ Hfind) as (_ & Hid & _).
  set (gi := googlecode_issue (self w) issue) in *.
  set (comments := GoogleCodeIssue.GetComments gi) in *.
  set (n := Z.to_nat (comment_count last)).
  assert (Hgid : GoogleCodeIssue.GetId gi = last_id) by exact Hid.
  unfold comment_call. rewrite Hgid.
  unfold Start_repair, bind, get_self.
  destruct (Nat.eqb_spec (size (_previously_created_issues (self w))) 0) as [Hsize|_].
  { apply map_size_empty_iff in Hsize. rewrite Hsize, lookup_empty in Hlast.
    discriminate Hlast. }
  rewrite (last_issue_id_highest _ _ _ Hlast Hmax Hfloor), Hlast.
  unfold ret. rewrite Hfind. fold gi. fold comments. rewrite Hgid.
  destruct (Z.lt_ge_cases (comment_count last) (Z.of_nat (length comments)))
    as [Hlt|Hge].
  - destruct (Z.eqb_spec (comment_count last) (Z.of_nat (length comments)))
      as [Heq|_]; [lia|]. simpl negb. cbv iota.
    replace (comment_count last) with (Z.of_nat (length (take n comments))).
    + apply (repair_loop comments (take n comments) (drop n comments)
               (fun comment => CallCreateComment last_id last_id
                                 (GoogleCodeComment.new gi comment)
                                 (_project_name (self w)))
               (fun comment => CreateComment last_id last_id
                                 (GoogleCodeComment.new gi comment)
                                 (_project_name (self w)))).
      now rewrite take_drop.
    + rewrite length_take. unfold n. lia.
  - rewrite drop_ge by (unfold n; lia). simpl.
    destruct (negb (comment_count last =? Z.of_nat (length comments)));
      [now rewrite range_empty | reflexivity].
Qed.

(** X24.  A run that resumes an interrupted one, against a service that
    numbers every issue with its source id and raises nothing: [Start]
    ends normally, and its calls are the comments that the highest issue
    of the index lacks, then, in archive order, what the new issues of
    the archive need; it calls nothing for the other issues of the
    index. *)
Theorem Start_resumes (w : World S) (last_id : Z) (last : PreviousIssue)
    (issue : Issue) :
  _previously_created_issues (self w) !! last_id = Some last ->
  (forall id, is_Some (_previously_created_issues (self w) !! id) -> id <= last_id) ->
  -1 <= last_id ->
  find_issue (_issue_json_data (self w)) last_id last = Some issue ->
  0 <= comment_count last ->
  (forall issue, issue ∈ _issue_json_data (self w) -> 0 <= issue_id issue) ->
  (Start w).1 = Ok tt
  /\ calls (Start w).2
     = (calls w
          ++ List.map (comment_call (googlecode_issue (self w) issue) last_id
                         (_project_name (self w)))
                      (drop (Z.to_nat (comment_count last))
                            (GoogleCodeIssue.GetComments
                               (googlecode_issue (self w) issue)))
          ++ flat_map (new_issue_calls (self w)) (_issue_json_data (self w)))%list.
Proof.
  intros Hlast Hmax Hfloor Hfind Hcount Hpos.
  rewrite Start_unfold.
  rewrite (Start_repair_run w last_id last issue Hlast Hmax Hfloor Hfind Hcount).
  pose proof (for_each_invoke
                (drop (Z.to_nat (comment_count last))
                      (GoogleCodeIssue.GetComments (googlecode_issue (self w) issue)))
                (comment_call (googlecode_issue (self w) issue) last_id
                   (_project_name (self w)))
                (fun comment =>
                   CreateComment last_id last_id
                     (GoogleCodeComment.new (googlecode_issue (self w) issue) comment)
                     (_project_name (self w))) w)
    as (Hself & _ & Hok & Hall).
  cbv zeta in Hself, Hok, Hall.
  destruct (for_each _ _ w) as [[[]|e] w1]; simpl in Hself, Hok, Hall.
  2:{ assert (Hnever : @Raise unit e = Ok tt).
      { apply Hall. intros comment s. apply comment_raises_nothing. }
      discriminate Hnever. }
  specialize (Hok eq_refl).
  rewrite Start_main_unfold, Hself.
  destruct (for_each_cooperative create_answers_source_id comment_raises_nothing
              close_raises_nothing (_issue_json_data (self w)) (begin_main w1))
    as [Hr Hcalls].
  { exact Hpos. }
  split; [exact Hr|]. rewrite Hcalls. simpl. rewrite Hok, <- app_assoc.
  f_equal. f_equal. apply flat_map_ext. intros i.
  apply new_issue_calls_config. rewrite Hself. repeat split.
Qed.

End Resume.

Lemma Start_resumes_witness :
  calls (@Start _ echo_service (unit_world [issue_3; issue_7; issue_8] interrupted_index)).2
  = [ comment_call (sample_googlecode_issue issue_7) 7 "proj"
        (sample_comment 2 "See #5." None);
      comment_call (sample_googlecode_issue issue_7) 7 "proj"
        (sample_comment 3 "" None);
      CallCreateIssue (sample_googlecode_issue issue_8);
      comment_call (sample_googlecode_issue issue_8) 8 "proj"
        (sample_comment 1 "Still." None) ].
Proof.
  pose proof (@Start_resumes _ echo_service
                ltac:(reflexivity) ltac:(reflexivity) ltac:(reflexivity)
                (unit_world [issue_3; issue_7; issue_8] interrupted_index)
                7 {| title := "Crash on start"; comment_count := 1 |} issue_7)
    as Hstart.
  destruct Hstart as [_ Hcalls].
  - reflexivity.
  - intros id [v Hv]. unfold unit_world, exporter_with, interrupted_index in Hv.
    simpl in Hv. destruct (decide (id = 3)) as [->|H3]; [lia|].
    destruct (decide (id = 7)) as [->|H7]; [lia|].
    rewrite lookup_insert_ne, lookup_singleton_ne in Hv by congruence.
    discriminate Hv.
  - lia.
  - reflexivity.
  - simpl. lia.
  - intros issue Hin. simpl in Hin.
    repeat (apply elem_of_cons in Hin as [->|Hin]; [simpl; lia|]).
    inversion Hin.
  - rewrite Hcalls. reflexivity.
Defined.

(** ** Status *)

Lemma lower_ascii_idempotent (c : ascii) :
  lower_ascii (lower_ascii c) = lower_ascii c.
Proof. destruct c as [[] [] [] [] [] [] [] []]; reflexivity. Qed.

Lemma lower_idempotent (s : string) : lower (lower s) = lower s.
Proof.
  induction s as [|c r IH]; simpl; [reflexivity|].
  now rewrite lower_ascii_idempotent, IH.
Qed.

Lemma is_ascii_lower (s : string) : is_ascii s = true -> is_ascii (lower s) = true.
Proof.
  induction s as [|c r IH]; simpl; [reflexivity|].
  intros Hs. apply andb_prop in Hs as [Hc Hr]. rewrite (IH Hr), andb_true_r.
  revert Hc. destruct c as [[] [] [] [] [] [] [] []];
    intros Hc; first [reflexivity | exact Hc].
Qed.

(** X9.  For a status written in ASCII, [GetStatus] does not look at the
    case of the status: it is the status in lower case, with [open] for
    [accepted], so it is never [accepted], is in ASCII and has no capital
    letter left. *)
Theorem GetStatus_lower_case (self : GoogleCodeIssue.t) :
  is_ascii (issue_status (GoogleCodeIssue._issue self)) = true ->
  GoogleCodeIssue.GetStatus self <> "accepted"
  /\ is_ascii (GoogleCodeIssue.GetStatus self) = true
  /\ lower (GoogleCodeIssue.GetStatus self) = GoogleCodeIssue.GetStatus self
  /\ (forall other : GoogleCodeIssue.t,
        is_ascii (issue_status (GoogleCodeIssue._issue other)) = true ->
        lower (issue_status (GoogleCodeIssue._issue other))
        = lower (issue_status (GoogleCodeIssue._issue self)) ->
        GoogleCodeIssue.GetStatus other = GoogleCodeIssue.GetStatus self)
  /\ (lower (issue_status (GoogleCodeIssue._issue self)) <> "accepted" ->
      GoogleCodeIssue.GetStatus self
      = lower (issue_status (GoogleCodeIssue._issue self))).
Proof.
  intros Hascii. unfold GoogleCodeIssue.GetStatus.
  destruct (String.eqb_spec (lower (issue_status (GoogleCodeIssue._issue self)))
                            "accepted") as [Heq|Hne].
  - split; [discriminate|]. split; [reflexivity|]. split; [reflexivity|].
    split; [|contradiction].
    intros other _ ->. now rewrite Heq.
  - split; [exact Hne|]. split; [now apply is_ascii_lower|].
    split; [apply lower_idempotent|]. split; [|reflexivity].
    intros other _ ->.
    destruct (String.eqb_spec (lower (issue_status (GoogleCodeIssue._issue self)))
                              "accepted"); [contradiction | reflexivity].
Qed.

Lemma GetStatus_lower_case_witness :
  GoogleCodeIssue.GetStatus (sample_googlecode_issue issue_9)
  = GoogleCodeIssue.GetStatus
      (sample_googlecode_issue (sample_issue 1 "t" "ACCEPTED" None []))
  /\ GoogleCodeIssue.GetStatus (sample_googlecode_issue issue_7) = "fixed".
Proof.
  split.
  - apply (proj1 (proj2 (proj2 (proj2 (GetStatus_lower_case
             (sample_googlecode_issue (sample_issue 1 "t" "ACCEPTED" None []))
             eq_refl)))));
      reflexivity.
  - apply (proj2 (proj2 (proj2 (proj2 (GetStatus_lower_case
             (sample_googlecode_issue issue_7) eq_refl))))).
    discriminate.
Defined.

(** ** Witnesses of the counters and of the search *)

Lemma Start_keeps_config_and_counts_witness :
  _skipped_issues
    (self (@Start _ memory_service
             (world_with [issue_3; issue_7; issue_8] interrupted_index (empty_target 8))).2)
  = 2
  /\ _issue_number
       (self (@Start _ memory_service
                (world_with [issue_3; issue_7; issue_8] interrupted_index
                            (empty_target 8))).2)
     = 3.
Proof.
  pose proof (@Start_keeps_config_and_counts _ memory_service
                (world_with [issue_3; issue_7; issue_8] interrupted_index
                            (empty_target 8))) as [_ Hcounts].
  destruct (Hcounts eq_refl) as (Htotal & Hnumber & Hskipped).
  split; [rewrite Hskipped | rewrite Hnumber, Htotal]; reflexivity.
Defined.

Lemma last_issue_id_is_highest_witness :
  3 <= last_issue_id interrupted_index.
Proof.
  apply (proj1 (proj2 (last_issue_id_is_highest interrupted_index))).
  now exists {| title := "Typo"; comment_count := 0 |}.
Defined.

Lemma CreateComments_progress_witness :
  _comment_number
    (self (@_CreateComments _ memory_service
             (GoogleCodeIssue.GetComments (sample_googlecode_issue issue_7)) 7
             (sample_googlecode_issue issue_7) (fresh_world [issue_7] 7)).2)
  = 3.
Proof.
  pose proof (@CreateComments_progress _ memory_service
                (GoogleCodeIssue.GetComments (sample_googlecode_issue issue_7)) 7
                (sample_googlecode_issue issue_7) (fresh_world [issue_7] 7))
    as (Htotal & _ & _ & Hdone).
  cbv zeta in Htotal, Hdone. rewrite (Hdone eq_refl), Htotal. reflexivity.
Defined.

Lemma GetContent_without_attachments_witness :
  GoogleCodeComment.GetContent (comment_with []) = "See #5.".
Proof.
  apply (proj1 (GetContent_without_attachments (comment_with []))).
  now right.
Defined.
